(** * Event Manager (src/app.py): store operations, query and sort

    A shallow embedding of the event store of [src/app.py] and the proofs of
    its specification.  The Streamlit session ([st.session_state]) is an
    explicit state record threaded through a small state monad; the page
    output ([st.toast], [st.error]) is a log kept next to it. *)

From Stdlib Require Import Ascii String.
From stdpp Require Import base numbers list strings sorting pretty.

Open Scope string_scope.
Open Scope Z_scope.
Open Scope list_scope.

(** ** Data model *)

(** Strings are Python's [str] values, taken as the sequence of their
    characters (of their UTF-8 bytes, outside ASCII).

    [datetime.now().timestamp()]: a float of seconds with a microsecond
    fraction.  Only equality of ids is ever used by the program, and distinct
    microsecond instants give distinct floats, so an id is kept as the number
    of microseconds since the epoch. *)
Definition timestamp : Type := Z.

(** The dictionary built by the form of [create_event_tab] (lines 101-108):
    six string-valued keys. *)
Record event_data : Type := EventData {
  title : string;
  date : string;
  time : string;
  location : string;
  category : string;
  description : string
}.

(** A stored event: the same dictionary with the key ['id'] added. *)
Record event : Type := Event {
  ev_id : timestamp;
  ev_fields : event_data
}.

#[global] Instance event_data_eq_dec : EqDecision event_data.
Proof. solve_decision. Defined.

#[global] Instance event_eq_dec : EqDecision event.
Proof. solve_decision. Defined.

Inductive tab : Type := CreateEventTab | ViewEventsTab.

(** What the page shows the user. *)
Inductive notice : Type :=
| toast (msg : string)
| error (msg : string).

(** [st.session_state] after [main] has initialised it (lines 225-228),
    together with the notices shown so far.  [events = None] means the key
    ['events'] is not in the session yet; [editing_id = None] is Python's
    [None]. *)
Record session_state : Type := Session {
  events : option (list event);
  editing_id : option timestamp;
  current_tab : tab;
  shown : list notice
}.

Definition initial_session : session_state :=
  {| events := None; editing_id := None; current_tab := CreateEventTab; shown := [] |}.

(** ** The session monad *)

Definition M (A : Type) : Type := session_state → A * session_state.

Definition ret {A} (a : A) : M A := λ s, (a, s).
Definition bind {A B} (m : M A) (f : A → M B) : M B :=
  λ s, let r := m s in f (fst r) (snd r).

Declare Scope session_scope.
Delimit Scope session_scope with session.
Notation "x <- m ;; k" := (bind m (λ x, k))
  (at level 100, m at next level, right associativity) : session_scope.
Notation "m ;;; k" := (bind m (λ _, k))
  (at level 100, right associativity) : session_scope.
Open Scope session_scope.

Definition get_session : M session_state := λ s, (s, s).
Definition set_events (l : list event) : M unit :=
  λ s, (tt, {| events := Some l; editing_id := editing_id s;
               current_tab := current_tab s; shown := shown s |}).
Definition set_editing_id (i : option timestamp) : M unit :=
  λ s, (tt, {| events := events s; editing_id := i;
               current_tab := current_tab s; shown := shown s |}).
Definition set_current_tab (t : tab) : M unit :=
  λ s, (tt, {| events := events s; editing_id := editing_id s;
               current_tab := t; shown := shown s |}).
Definition show (n : notice) : M unit :=
  λ s, (tt, {| events := events s; editing_id := editing_id s;
               current_tab := current_tab s; shown := shown s ++ [n] |}).

Definition st_toast (msg : string) : M unit := show (toast msg).
Definition st_error (msg : string) : M unit := show (error msg).

(** Final state and returned value of a computation. *)
Definition exec {A} (m : M A) (s : session_state) : session_state := snd (m s).
Definition eval {A} (m : M A) (s : session_state) : A := fst (m s).

(** The list a reader of the store sees: an absent key reads as []. *)
Definition stored (s : session_state) : list event := default [] (events s).

(** ** Exceptions *)

(** The exceptions that leave a call of the program: [ValueError] (from
    [datetime.strptime] and [list.index]), Streamlit's [RerunException], by
    which [st.rerun()] ends the run in course and asks for the next one, and
    Streamlit's [StreamlitDuplicateElementKey], raised by a widget whose
    [key] is already taken in the run. *)
Inductive exn : Type :=
| ValueError (msg : string)
| RerunException
| DuplicateElementKey (key : string).

(** A Python call either returns or raises. *)
Inductive result (A : Type) : Type :=
| Returned (a : A)
| Raised (e : exn).
Arguments Returned {A} a.
Arguments Raised {A} e.

#[global] Instance exn_eq_dec : EqDecision exn.
Proof. solve_decision. Defined.

#[global] Instance result_eq_dec `{EqDecision A} : EqDecision (result A).
Proof. solve_decision. Defined.

(** ** Store operations (lines 8-56) *)

(** [load_events], lines 8-14. *)
Definition load_events : M (list event) :=
  s <- get_session ;;
  match events s with
  | None => set_events [] ;;; ret []
  | Some l => ret l
  end.

(** [save_events], lines 16-18. *)
Definition save_events (event_list : list event) : M unit :=
  set_events event_list.

(** [next((i for i, event in enumerate(events) if event['id'] == id), -1)]:
    the first position holding the id, counted from [i], or -1. *)
Fixpoint index_from (i : Z) (id : timestamp) (l : list event) : Z :=
  match l with
  | [] => -1
  | e :: l' => if decide (ev_id e = id) then i else index_from (i + 1) id l'
  end.

Definition index_of (id : timestamp) (l : list event) : Z := index_from 0 id l.

(** [add_event], lines 20-39.  [now] is the value read from the clock by
    [datetime.now().timestamp()] on line 33. *)
Definition add_event (now : timestamp) (event_data : event_data) : M unit :=
  events <- load_events ;;
  s <- get_session ;;
  events' <-
    match editing_id s with
    | Some id =>
        let index := index_of id events in
        let events' :=
          if decide (index ≠ -1)
          then <[Z.to_nat index := Event id event_data]> events
          else events in
        set_editing_id None ;;;
        st_toast "✅ Event updated successfully!" ;;;
        ret events'
    | None =>
        let event_data' := Event now event_data in
        st_toast "✅ New Event created!" ;;;
        ret (events ++ [event_data'])
    end ;;
  save_events events' ;;;
  set_current_tab ViewEventsTab.

(** A Python value returned by a handler: [None], [True] or [False]. *)
Inductive pyval : Type :=
| PyNone
| PyBool (b : bool).

(** [st.rerun()], line 47: the call does not return; it raises
    [RerunException], which Streamlit catches to run the script again on the
    session as it stands. *)
Definition st_rerun : M (result pyval) := ret (Raised RerunException).

(** [delete_event], lines 42-47.  The function has no [return] statement and
    its last call is [st.rerun()]: it is always left by the exception of that
    call, after the store has been saved and the toast shown. *)
Definition delete_event (event_id : timestamp) : M (result pyval) :=
  all <- load_events ;;
  let events := filter (λ event, ev_id event ≠ event_id) all in
  save_events events ;;;
  st_toast "🗑️ Event deleted." ;;;
  st_rerun.

(** [start_edit_event], lines 49-52. *)
Definition start_edit_event (event_id : timestamp) : M unit :=
  set_editing_id (Some event_id) ;;;
  set_current_tab CreateEventTab.

(** [get_event_by_id], lines 54-56. *)
Definition get_event_by_id (event_id : timestamp) : M (option event) :=
  all <- load_events ;;
  ret (head (filter (λ e, ev_id e = event_id) all)).

(** ** Dates and times *)

(** The value of [st.date_input]: a [datetime.date]. *)
Record date_obj : Type := Date { d_year : Z; d_month : Z; d_day : Z }.

(** The value of [st.time_input]: a [datetime.time]; only hour and minute are
    ever formatted. *)
Record time_obj : Type := Time { t_hour : Z; t_minute : Z }.

(** The value of [datetime.strptime(..., "%Y-%m-%d %H:%M")]: a naive
    [datetime] whose second and microsecond are 0. *)
Record datetime : Type := DateTime {
  year : Z; month : Z; day : Z; hour : Z; minute : Z
}.

#[global] Instance datetime_eq_dec : EqDecision datetime.
Proof. solve_decision. Defined.

Definition is_leap (y : Z) : bool :=
  (y mod 4 =? 0) && (negb (y mod 100 =? 0) || (y mod 400 =? 0)).

Definition days_in_month (y m : Z) : Z :=
  if m =? 2 then (if is_leap y then 29 else 28)
  else if (m =? 4) || (m =? 6) || (m =? 9) || (m =? 11) then 30
  else 31.

Definition valid_date (d : date_obj) : Prop :=
  1 ≤ d_year d ≤ 9999 ∧ 1 ≤ d_month d ≤ 12 ∧
  1 ≤ d_day d ≤ days_in_month (d_year d) (d_month d).

Definition valid_time (t : time_obj) : Prop :=
  0 ≤ t_hour t ≤ 23 ∧ 0 ≤ t_minute t ≤ 59.

Definition combine_dt (d : date_obj) (t : time_obj) : datetime :=
  DateTime (d_year d) (d_month d) (d_day d) (t_hour t) (t_minute t).

(** Earlier in time: the fields compared in order, most significant first. *)
Definition dt_lt (a b : datetime) : Prop :=
  year a < year b ∨ (year a = year b ∧
  (month a < month b ∨ (month a = month b ∧
  (day a < day b ∨ (day a = day b ∧
  (hour a < hour b ∨ (hour a = hour b ∧ minute a < minute b))))))).

(** [datetime.__lt__]: the fields compared in order, most significant first. *)
Definition dt_ltb (a b : datetime) : bool :=
  (year a <? year b) || ((year a =? year b) &&
  ((month a <? month b) || ((month a =? month b) &&
  ((day a <? day b) || ((day a =? day b) &&
  ((hour a <? hour b) || ((hour a =? hour b) &&
  (minute a <? minute b)))))))).

(** *** Calendar time

    The position of a [datetime] on the time line, in minutes: the proleptic
    Gregorian ordinal of its date (the count of [date.toordinal]: 1 for
    0001-01-01) followed by the time of day. *)

Definition days_before_year (y : Z) : Z :=
  (y - 1) * 365 + (y - 1) / 4 - (y - 1) / 100 + (y - 1) / 400.

Definition days_before_month (y m : Z) : Z :=
  (if m <=? 1 then 0 else if m =? 2 then 31 else if m =? 3 then 59
   else if m =? 4 then 90 else if m =? 5 then 120 else if m =? 6 then 151
   else if m =? 7 then 181 else if m =? 8 then 212 else if m =? 9 then 243
   else if m =? 10 then 273 else if m =? 11 then 304 else 334)
  + (if (2 <? m) && is_leap y then 1 else 0).

Definition toordinal (dt : datetime) : Z :=
  days_before_year (year dt) + days_before_month (year dt) (month dt) + day dt.

Definition minutes_of (dt : datetime) : Z :=
  (toordinal dt * 24 + hour dt) * 60 + minute dt.

Definition valid_datetime (dt : datetime) : Prop :=
  1 ≤ year dt ∧ 1 ≤ month dt ≤ 12 ∧
  1 ≤ day dt ≤ days_in_month (year dt) (month dt) ∧
  0 ≤ hour dt ≤ 23 ∧ 0 ≤ minute dt ≤ 59.

(** *** Formatting: [strftime('%Y-%m-%d')] and [strftime('%H:%M')] *)

Definition digit (k : Z) : ascii := ascii_of_nat (Z.to_nat (48 + k)).

Definition zpad2 (n : Z) : string :=
  String (digit (n / 10)) (String (digit (n mod 10)) "").

Definition zpad4 (n : Z) : string :=
  String (digit (n / 1000)) (String (digit (n / 100 mod 10)) (zpad2 (n mod 100))).

(** ['%Y'] of [strftime]: the year in decimal.  The C library under
    [strftime] does not pad it, so a year below 1000 is written with fewer
    than four digits ('999', not '0999'); from 1000 to 9999 these are the four
    digits of the year. *)
Definition year_text (y : Z) : string :=
  if y <? 10 then String (digit y) ""
  else if y <? 100 then zpad2 y
  else if y <? 1000 then String (digit (y / 100)) (zpad2 (y mod 100))
  else zpad4 y.

(** [strftime('%Y-%m-%d')], line 103 (and line 76). *)
Definition strftime_date (d : date_obj) : string :=
  year_text (d_year d) +:+ "-" +:+ zpad2 (d_month d) +:+ "-" +:+ zpad2 (d_day d).

(** The form YYYY-MM-DD of a date (section 6): the year on four digits, with
    leading zeros below 1000.  This is what ["%Y-%m-%d"] reads. *)
Definition iso_date (d : date_obj) : string :=
  zpad4 (d_year d) +:+ "-" +:+ zpad2 (d_month d) +:+ "-" +:+ zpad2 (d_day d).

Definition strftime_time (t : time_obj) : string :=
  zpad2 (t_hour t) +:+ ":" +:+ zpad2 (t_minute t).

(** *** Parsing *)

Definition digit_val (c : ascii) : option Z :=
  let n := Z.of_nat (nat_of_ascii c) in
  if (48 <=? n) && (n <=? 57) then Some (n - 48) else None.

(** Reads exactly [n] decimal digits, most significant first. *)
Fixpoint take_digits (n : nat) (acc : Z) (s : string) : option (Z * string) :=
  match n with
  | O => Some (acc, s)
  | S n' =>
      match s with
      | String c s' =>
          match digit_val c with
          | Some v => take_digits n' (10 * acc + v) s'
          | None => None
          end
      | EmptyString => None
      end
  end.

Definition expect (c : ascii) (s : string) : option string :=
  match s with
  | String c' s' => if Ascii.eqb c c' then Some s' else None
  | EmptyString => None
  end.

Definition parse_fields (s : string) : option datetime :=
  '(y, s) ← take_digits 4 0 s;
  s ← expect "-" s;
  '(m, s) ← take_digits 2 0 s;
  s ← expect "-" s;
  '(d, s) ← take_digits 2 0 s;
  s ← expect " " s;
  '(h, s) ← take_digits 2 0 s;
  s ← expect ":" s;
  '(mi, s) ← take_digits 2 0 s;
  match s with
  | EmptyString => Some (DateTime y m d h mi)
  | _ => None
  end.

Definition in_range (dt : datetime) : bool :=
  (1 <=? year dt) && (1 <=? month dt) && (month dt <=? 12) &&
  (1 <=? day dt) && (day dt <=? days_in_month (year dt) (month dt)) &&
  (hour dt <=? 23) && (minute dt <=? 59).

(** Modelled from the spec: [datetime.strptime(s, "%Y-%m-%d %H:%M")] on the
    canonical zero-padded form of section 6 (date YYYY-MM-DD, time HH:MM,
    24-hour).  The library function itself is not part of the repository; the
    theorems on [sort_events] below hold for any parser and use this one only
    as an instance. *)
Definition strptime (s : string) : result datetime :=
  match parse_fields s with
  | Some dt =>
      if in_range dt then Returned dt
      else Raised (ValueError "time data does not match format")
  | None => Raised (ValueError "time data does not match format")
  end.

(** ** [sorted(iterable, key=...)]

    The built-in is not repository code.  It is modelled by what the language
    guarantees of it: the keys are computed once, they are compared with [<]
    only, and the sort is stable.  These guarantees fix the list returned,
    whatever the algorithm inside (lemma [sort_events_unique]). *)

Section Sorted.
Context {A K : Type}.
Variable ltb : K → K → bool.
Variable key : A → result K.

(** The keys are computed first, once per element and in list order; the
    first call that raises ends the sort. *)
Fixpoint decorate (l : list A) : result (list (K * A)) :=
  match l with
  | [] => Returned []
  | x :: l' =>
      match key x with
      | Raised e => Raised e
      | Returned k =>
          match decorate l' with
          | Raised e => Raised e
          | Returned ps => Returned ((k, x) :: ps)
          end
      end
  end.

(** The sort compares keys with [<] only and is stable: an element is put
    in front of the first element whose key is not smaller than its own,
    so it stays in front of the later elements with an equal key. *)
Fixpoint insert_by (p : K * A) (ps : list (K * A)) : list (K * A) :=
  match ps with
  | [] => [p]
  | q :: qs => if ltb (fst q) (fst p) then q :: insert_by p qs else p :: q :: qs
  end.

Fixpoint sort_pairs (ps : list (K * A)) : list (K * A) :=
  match ps with
  | [] => []
  | p :: ps' => insert_by p (sort_pairs ps')
  end.

Definition sorted (l : list A) : result (list A) :=
  match decorate l with
  | Raised e => Raised e
  | Returned ps => Returned (map snd (sort_pairs ps))
  end.

(** The order on decorated elements: the key on the left is not greater. *)
Definition pair_le (p q : K * A) : Prop := ltb (fst q) (fst p) = false.

(** A decorated element carries the key of its element. *)
Definition coherent (p : K * A) : Prop := key (snd p) = Returned (fst p).
End Sorted.

(** ** Query and sort (lines 58-60 and 127-140) *)

(** [str.__contains__]: [needle in hay]. *)
Fixpoint str_in (needle hay : string) : bool :=
  String.prefix needle hay ||
  match hay with
  | EmptyString => false
  | String _ hay' => str_in needle hay'
  end.

(** [needle] occurs in [hay] as a contiguous run of characters. *)
Definition substring_of (needle hay : string) : Prop :=
  ∃ pre post, hay = pre +:+ needle +:+ post.

(** [selects P l l']: [l'] is made of exactly the elements of [l] that
    satisfy [P], each as often as in [l] and in the order of [l]. *)
Inductive selects {A : Type} (P : A → Prop) : list A → list A → Prop :=
| selects_nil : selects P [] []
| selects_keep x l l' : P x → selects P l l' → selects P (x :: l) (x :: l')
| selects_skip x l l' : ¬ P x → selects P l l' → selects P (x :: l) l'.

(** ASCII letters to lower case; every other character is kept.  This is
    [str.lower] on ASCII text; it serves as the instance of [str.lower] in
    the examples. *)
Definition lower_char (c : ascii) : ascii :=
  let n := nat_of_ascii c in
  if ((65 <=? n) && (n <=? 90))%nat then ascii_of_nat (n + 32) else c.

Fixpoint ascii_lower (s : string) : string :=
  match s with
  | EmptyString => EmptyString
  | String c s' => String (lower_char c) (ascii_lower s')
  end.

Section Query.
(** [str.lower] and [datetime.strptime] are library functions: the
    program is read relative to them. *)
Variable lower : string → string.
Variable strptime : string → result datetime.

(** The key of line 60: [strptime(f"{x['date']} {x['time']}", ...)]. *)
Definition event_key (x : event) : result datetime :=
  strptime (date (ev_fields x) +:+ " " +:+ time (ev_fields x)).

(** [sort_events], lines 58-60. *)
Definition sort_events (event_list : list event) : result (list event) :=
  sorted dt_ltb event_key event_list.

(** [k] is the sort key of [x]. *)
Definition has_key (k : datetime) (x : event) : Prop :=
  event_key x = Returned k.

#[global] Instance has_key_dec k x : Decision (has_key k x).
Proof. unfold has_key. apply _. Defined.

(** Both events have a key, and the key of [a] is not later than that of [b]. *)
Definition key_le (a b : event) : Prop :=
  ∃ ka kb, has_key ka a ∧ has_key kb b ∧ dt_ltb kb ka = false.

(** Both events have a key, and [a] is not later on the time line than [b]. *)
Definition chrono_le (a b : event) : Prop :=
  ∃ ka kb, has_key ka a ∧ has_key kb b ∧ minutes_of ka ≤ minutes_of kb.

(** Lines 131-133. *)
Definition matches_search (search_query : string) (event : event) : bool :=
  str_in (lower search_query) (lower (title (ev_fields event))) ||
  str_in (lower search_query) (lower (description (ev_fields event))) ||
  str_in (lower search_query) (lower (location (ev_fields event))).

(** Line 135. *)
Definition matches_category (category_filter : string) (event : event) : bool :=
  bool_decide (category_filter = "All Categories") ||
  bool_decide (category (ev_fields event) = category_filter).

(** The filtering loop of [view_events_tab], lines 127-138. *)
Definition filtered_events
    (all_events : list event) (search_query category_filter : string) : list event :=
  match all_events with
  | [] => []
  | _ =>
      fold_left
        (λ filtered event,
           if matches_search search_query event && matches_category category_filter event
           then filtered ++ [event]
           else filtered)
        all_events []
  end.

(** The matching rule in the words of the specification (section 4.2). *)
Definition matches_spec (query category_filter : string) (e : event) : Prop :=
  (category_filter = "All Categories" ∨ category (ev_fields e) = category_filter) ∧
  (query = "" ∨
   substring_of (lower query) (lower (title (ev_fields e))) ∨
   substring_of (lower query) (lower (description (ev_fields e))) ∨
   substring_of (lower query) (lower (location (ev_fields e)))).

(** [view_events_tab] up to line 140: the list that is displayed. *)
Definition view_events_tab (search_query category_filter : string)
    : M (result (list event)) :=
  all_events <- load_events ;;
  ret (sort_events (filtered_events all_events search_query category_filter)).
End Query.

(** ** The form of [create_event_tab] (lines 97-109) *)

Record form_input : Type := FormInput {
  event_title : string;
  event_date : date_obj;
  event_time : time_obj;
  event_location : string;
  event_category : string;
  event_description : string
}.

Definition form_event_data (f : form_input) : event_data :=
  {| title := event_title f;
     date := strftime_date (event_date f);
     time := strftime_time (event_time f);
     location := event_location f;
     category := event_category f;
     description := event_description f |}.

(** What happens when the submit button is pressed. *)
Definition create_event_tab (now : timestamp) (f : form_input) : M unit :=
  if decide (event_title f = "")
  then st_error "Event Title is required!"
  else add_event now (form_event_data f).

(** An event whose date and time are in the forms of section 6: the date
    field is the form YYYY-MM-DD of a calendar date and the time field the
    form HH:MM (24-hour) of a time of day. *)
Definition well_formed (e : event) : Prop :=
  ∃ d t, valid_date d ∧ valid_time t ∧
         date (ev_fields e) = iso_date d ∧ time (ev_fields e) = strftime_time t.

(** The date and the time of day of an instant. *)
Definition date_of (k : datetime) : date_obj := Date (year k) (month k) (day k).
Definition time_of (k : datetime) : time_obj := Time (hour k) (minute k).

(** The instant that the date and time fields of an event denote, read off
    the two fields of the event and nothing else: [e] is at [k] when its date
    field is the form YYYY-MM-DD of the date of [k] and its time field the
    form HH:MM of the time of day of [k]. *)
Definition at_instant (k : datetime) (e : event) : Prop :=
  valid_date (date_of k) ∧ valid_time (time_of k) ∧
  date (ev_fields e) = iso_date (date_of k) ∧
  time (ev_fields e) = strftime_time (time_of k).

#[global] Instance at_instant_dec k e : Decision (at_instant k e).
Proof. unfold at_instant, valid_date, valid_time. apply _. Defined.

(** The order asked of the sorted list: the date and time fields of [a]
    denote an instant that is not later on the time line, nor in the order of
    (date, time), than the instant denoted by those of [b]. *)
Definition not_later (a b : event) : Prop :=
  ∃ ka kb, at_instant ka a ∧ at_instant kb b ∧
           minutes_of ka ≤ minutes_of kb ∧ ¬ dt_lt kb ka.

(** What the sort needs of [datetime.strptime]: it reads a date and a time
    in the forms of section 6. *)
Definition reads_back (strptime : string → result datetime) : Prop :=
  ∀ d t, valid_date d → valid_time t →
         strptime (iso_date d +:+ " " +:+ strftime_time t) = Returned (combine_dt d t).

(** ** Sequences of operations *)

(** The store operations as the user triggers them.  [Create now f]: the form
    is submitted with the inputs [f] while the clock stands at [now].
    [Update id now f]: the Edit button of event [id], then the form.
    [Delete id]: the Delete button of event [id]; the [RerunException] that
    ends [delete_event] ends the run it is called in, and the operation that
    follows finds the session as [delete_event] left it. *)
Inductive op : Type :=
| Create (now : timestamp) (f : form_input)
| Update (id : timestamp) (now : timestamp) (f : form_input)
| Delete (id : timestamp).

Definition run_op (o : op) : M unit :=
  match o with
  | Create now f => create_event_tab now f
  | Update id now f => start_edit_event id ;;; create_event_tab now f
  | Delete id => delete_event id ;;; ret tt
  end.

Fixpoint run_ops (os : list op) : M unit :=
  match os with
  | [] => ret tt
  | o :: os' => run_op o ;;; run_ops os'
  end.

Definition ids (l : list event) : list timestamp := map ev_id l.

(** The events left by [add_event], as a function of the state it starts in. *)
Definition add_event_result (now : timestamp) (d : event_data) (s : session_state)
    : list event :=
  match editing_id s with
  | Some id =>
      if decide (index_of id (stored s) ≠ -1)
      then <[Z.to_nat (index_of id (stored s)) := Event id d]> (stored s)
      else stored s
  | None => stored s ++ [Event now d]
  end.

(** The clock values at the creations. *)
Fixpoint create_clocks (os : list op) : list timestamp :=
  match os with
  | [] => []
  | Create now _ :: os' => now :: create_clocks os'
  | _ :: os' => create_clocks os'
  end.

(** A handler reports a failure to the user by an [st.error] notice; the
    program raises no exception of its own. *)
Definition reports_error (before after : session_state) : Prop :=
  ∃ msg, shown after = shown before ++ [error msg].

(** ** Scenarios of the specification *)

Definition event_A : event :=
  Event 1 (EventData "Team Sync" "2024-05-01" "09:00" "" "Meeting" "").
Definition event_B : event :=
  Event 2 (EventData "Art Workshop" "2024-04-20" "14:00" "Studio 5" "Workshop" "").

Definition sample_data : event_data :=
  EventData "Art Workshop II" "2024-04-20" "14:00" "Studio 5" "Workshop" "".

Definition editing_absent : session_state :=
  {| events := Some [event_A]; editing_id := Some 7;
     current_tab := CreateEventTab; shown := [] |}.

Definition editing_B : session_state :=
  {| events := Some [event_A; event_B]; editing_id := Some 2;
     current_tab := CreateEventTab; shown := [] |}.

(** A store with a repeated id, on the list tab. *)
Definition viewing_repeated : session_state :=
  {| events := Some [Event 1000 (EventData "Team Sync" "2024-05-01" "09:00" "" "Meeting" "");
                     Event 1000 (EventData "Art Workshop" "2024-04-20" "14:00" "Studio 5"
                                   "Workshop" "")];
     editing_id := None; current_tab := ViewEventsTab; shown := [] |}.

Definition viewing_AB : session_state :=
  {| events := Some [event_A; event_B]; editing_id := None;
     current_tab := ViewEventsTab; shown := [] |}.

Definition form_A : form_input :=
  FormInput "Team Sync" (Date 2024 5 1) (Time 9 0) "" "Meeting" "".

Definition form_B : form_input :=
  FormInput "Art Workshop" (Date 2024 4 20) (Time 14 0) "Studio 5" "Workshop" "".

(** A third event, at the date and time of [event_A]. *)
Definition event_A2 : event :=
  Event 4 (EventData "Stand-up" "2024-05-01" "09:00" "Room 2" "Meeting" "").

Definition event_bad : event :=
  Event 3 (EventData "Broken" "2024-13-01" "09:00" "" "Other" "").

(** ** Sequencing of calls that may raise *)

Definition rbind {A B} (r : result A) (k : A → result B) : result B :=
  match r with
  | Returned a => k a
  | Raised e => Raised e
  end.

Notation "x <-? r ;; k" := (rbind r (λ x, k))
  (at level 100, r at next level, right associativity) : session_scope.

(** ** The whole of [create_event_tab] (lines 64-109) *)

(** Line 67. *)
Definition event_categories : list string :=
  ["Meeting"; "Conference"; "Workshop"; "Social"; "Other"].

(** [list.index]: the first position holding [x]; [ValueError] when there is
    none. *)
Fixpoint list_index (x : string) (l : list string) : result nat :=
  match l with
  | [] => Raised (ValueError ("'" +:+ x +:+ "' is not in list"))
  | y :: l' =>
      if decide (y = x) then Returned 0%nat
      else i <-? list_index x l' ;; Returned (S i)
  end.

(** What the form shows before any input: the heading of line 72, the
    values handed to the six widgets (lines 83-93) and the label of the
    button (line 95). *)
Record form_view : Type := FormView {
  heading : string;
  default_title : string;
  default_date : date_obj;
  default_time : time_obj;
  default_location : string;
  default_category_index : nat;
  default_description : string;
  button_label : string
}.

(** What the date, time and category widgets hand back is a date, a time of
    day and one of the options. *)
Definition valid_form (f : form_input) : Prop :=
  valid_date (event_date f) ∧ valid_time (event_time f) ∧
  event_category f ∈ event_categories.

(** A form input whose date is of the year 1000 or later: the dates that
    [strftime('%Y-%m-%d')] writes with a year of four digits. *)
Definition four_digit_year (f : form_input) : Prop := 1000 ≤ d_year (event_date f).

(** Line 70: the event under edit.  The edit id is tested for truth, so an
    id of 0.0 counts as no id; [get_event_by_id] is called only when the
    test passes. *)
Definition editing_event : M (option event) :=
  s <- get_session ;;
  match editing_id s with
  | Some id => if decide (id = 0) then ret None else get_event_by_id id
  | None => ret None
  end.

Section Form.
(** [datetime.strptime(_, '%Y-%m-%d')] and
    [datetime.strptime(_, '%H:%M').time()] of lines 87 and 89. *)
Variable strptime_date : string → result date_obj.
Variable strptime_time : string → result time_obj.

(** [datetime.today()] and [datetime.now()] of lines 76-77, as the date and
    the time of day they are formatted to. *)
Variable today : date_obj.
Variable clock : time_obj.

(** Lines 72-95.  The parses and the index search run in the order of the
    widgets; the first one that raises ends the rendering. *)
Definition render_form (ee : option event) : result form_view :=
  let default_title := match ee with Some e => title (ev_fields e) | None => "" end in
  let default_date :=
    match ee with Some e => date (ev_fields e) | None => strftime_date today end in
  let default_time :=
    match ee with Some e => time (ev_fields e) | None => strftime_time clock end in
  let default_location :=
    match ee with Some e => location (ev_fields e) | None => "" end in
  let default_category :=
    match ee with Some e => category (ev_fields e) | None => "Meeting" end in
  let default_description :=
    match ee with Some e => description (ev_fields e) | None => "" end in
  event_date <-? strptime_date default_date ;;
  event_time <-? strptime_time default_time ;;
  index <-? list_index default_category event_categories ;;
  Returned
    {| heading := (match ee with Some _ => "Edit" | None => "Create New" end) +:+ " Event";
       default_title := default_title;
       default_date := event_date;
       default_time := event_time;
       default_location := default_location;
       default_category_index := index;
       default_description := default_description;
       button_label :=
         match ee with Some _ => "Update Event" | None => "Create Event" end |}.

(** One run of [create_event_tab]: the form is rendered from the session as
    it stands; when the button was pressed, with the clock at [now] and the
    widgets holding [f], lines 97-109 follow. *)
Definition create_event_tab_run (submitted : option (timestamp * form_input))
    : M (result form_view) :=
  ee <- editing_event ;;
  match render_form ee with
  | Raised e => ret (Raised e)
  | Returned v =>
      match submitted with
      | Some (now, f) => create_event_tab now f ;;; ret (Returned v)
      | None => ret (Returned v)
      end
  end.
End Form.

(** What the form needs of the two parsers: they read back what the form
    wrote.  ['%Y'] reads four digits, which is what [strftime] writes from
    the year 1000 on. *)
Definition reads_back_date (strptime_date : string → result date_obj) : Prop :=
  ∀ d, valid_date d → 1000 ≤ d_year d → strptime_date (strftime_date d) = Returned d.

Definition reads_back_time (strptime_time : string → result time_obj) : Prop :=
  ∀ t, valid_time t → strptime_time (strftime_time t) = Returned t.

(** Modelled from the spec: [datetime.strptime(s, '%Y-%m-%d')] on the
    zero-padded form YYYY-MM-DD of section 6; an instance of the parser of
    line 87. *)
Definition strptime_ymd (s : string) : result date_obj :=
  match
    '(y, s) ← take_digits 4 0 s;
    s ← expect "-" s;
    '(m, s) ← take_digits 2 0 s;
    s ← expect "-" s;
    '(d, s) ← take_digits 2 0 s;
    match s with
    | EmptyString => Some (Date y m d)
    | _ => None
    end
  with
  | Some d =>
      if (1 <=? d_year d) && (1 <=? d_month d) && (d_month d <=? 12) &&
         (1 <=? d_day d) && (d_day d <=? days_in_month (d_year d) (d_month d))
      then Returned d
      else Raised (ValueError "time data does not match format")
  | None => Raised (ValueError "time data does not match format")
  end.

(** Modelled from the spec: [datetime.strptime(s, '%H:%M').time()] on the
    zero-padded 24-hour form HH:MM of section 6; an instance of the parser of
    line 89. *)
Definition strptime_hm (s : string) : result time_obj :=
  match
    '(h, s) ← take_digits 2 0 s;
    s ← expect ":" s;
    '(mi, s) ← take_digits 2 0 s;
    match s with
    | EmptyString => Some (Time h mi)
    | _ => None
    end
  with
  | Some t =>
      if (t_hour t <=? 23) && (t_minute t <=? 59) then Returned t
      else Raised (ValueError "time data does not match format")
  | None => Raised (ValueError "time data does not match format")
  end.

(** ** The whole of [view_events_tab] (lines 112-215) *)

(** [date.toordinal] and [date.weekday] (Monday is 0). *)
Definition ordinal_of (d : date_obj) : Z :=
  days_before_year (d_year d) + days_before_month (d_year d) (d_month d) + d_day d.

Definition weekday (d : date_obj) : Z := (ordinal_of d + 6) mod 7.

Definition day_abbr (w : Z) : string :=
  if w =? 0 then "Mon" else if w =? 1 then "Tue" else if w =? 2 then "Wed"
  else if w =? 3 then "Thu" else if w =? 4 then "Fri" else if w =? 5 then "Sat"
  else "Sun".

Definition month_abbr (m : Z) : string :=
  if m =? 1 then "Jan" else if m =? 2 then "Feb" else if m =? 3 then "Mar"
  else if m =? 4 then "Apr" else if m =? 5 then "May" else if m =? 6 then "Jun"
  else if m =? 7 then "Jul" else if m =? 8 then "Aug" else if m =? 9 then "Sep"
  else if m =? 10 then "Oct" else if m =? 11 then "Nov" else "Dec".

(** [strftime('%a, %b %d, %Y')] of line 189, in the C locale. *)
Definition display_date (d : date_obj) : string :=
  day_abbr (weekday d) +:+ ", " +:+ month_abbr (d_month d) +:+ " " +:+
  zpad2 (d_day d) +:+ ", " +:+ year_text (d_year d).

(** ['%I']: the hour on the 12-hour clock. *)
Definition hour12 (h : Z) : Z := if h mod 12 =? 0 then 12 else h mod 12.

(** [strftime('%I:%M %p')] of line 192, in the C locale. *)
Definition display_time (t : time_obj) : string :=
  zpad2 (hour12 (t_hour t)) +:+ ":" +:+ zpad2 (t_minute t) +:+ " " +:+
  (if t_hour t <? 12 then "AM" else "PM").

(** A card of the list, lines 170-215, as what it shows and what its two
    buttons are wired to: the column it is put in, the event whose title and
    category it prints, the date and time texts, the location and the
    description when they are not empty, and the keys of the Edit and Delete
    buttons, which call [start_edit_event] and [delete_event] on the id of
    the event. *)
Record card : Type := Card {
  card_column : nat;
  card_event : event;
  card_date : string;
  card_time : string;
  card_location : option string;
  card_description : option string;
  edit_key : string;
  delete_key : string
}.

(** What [view_events_tab] puts under the filter bar (lines 144-215): one of
    the two notices, or the cards.  When the rendering of a card raises, the
    cards rendered before it stay on the screen and [failure] is the
    exception that ended the run. *)
Inductive page : Type :=
| NoEventsYet
| NoEventsFound
| EventCards (cards : list card) (failure : option exn).

(** The keys of the two widgets of the filter bar, lines 122 and 124: they
    are taken when the first card is rendered. *)
Definition page_keys : list string := ["searchInput"; "categoryFilter"].

(** [st.button(_, key=key, ...)] in a run in which the keys [used] are taken:
    the key is taken by the button, or the call raises when it is taken
    already. *)
Definition st_button (used : list string) (key : string) : result (list string) :=
  if decide (key ∈ used) then Raised (DuplicateElementKey key)
  else Returned (key :: used).

Section View.
Variable lower : string → string.
Variable strptime : string → result datetime.
Variable strptime_date : string → result date_obj.
Variable strptime_time : string → result time_obj.
(** The text of a float in an f-string, lines 210 and 212. *)
Variable str_float : timestamp → string.

(** The two parses in the text of a card (lines 189 and 192) return. *)
Definition card_parses (event : event) : Prop :=
  (∃ d, strptime_date (date (ev_fields event)) = Returned d) ∧
  (∃ t, strptime_time (time (ev_fields event)) = Returned t).

(** Lines 171-212 for the event at position [i] of the sorted list, in a
    run in which the keys [used] are taken: the card, and the keys taken
    after it.  The two parses are in the text of line 175; the Edit button
    (line 210) comes before the Delete button (line 212).  In the loop of
    line 170 it is never the Delete button that raises: its key is taken
    only together with the key of the Edit button of the same id (lemma
    [render_cards_from_keys]). *)
Definition render_card (used : list string) (i : nat) (event : event)
    : result (card * list string) :=
  d <-? strptime_date (date (ev_fields event)) ;;
  t <-? strptime_time (time (ev_fields event)) ;;
  let edit_key := "edit_" +:+ str_float (ev_id event) in
  used <-? st_button used edit_key ;;
  let delete_key := "delete_" +:+ str_float (ev_id event) in
  used <-? st_button used delete_key ;;
  Returned
    ({| card_column := (i mod 3)%nat;
        card_event := event;
        card_date := display_date d;
        card_time := display_time t;
        card_location :=
          if decide (location (ev_fields event) = "") then None
          else Some (location (ev_fields event));
        card_description :=
          if decide (description (ev_fields event) = "") then None
          else Some (description (ev_fields event));
        edit_key := edit_key;
        delete_key := delete_key |}, used).

(** [for i, event in enumerate(sorted_events)], from position [i] on and
    with the keys [used] taken: the cards rendered, and the exception that
    stopped the loop, if any. *)
Fixpoint render_cards_from (used : list string) (i : nat) (sorted_events : list event)
    : list card * option exn :=
  match sorted_events with
  | [] => ([], None)
  | event :: rest =>
      match render_card used i event with
      | Raised e => ([], Some e)
      | Returned (c, used') =>
          let r := render_cards_from used' (S i) rest in (c :: fst r, snd r)
      end
  end.

(** The loop of line 170 in [view_events_tab]: the keys of the filter bar
    are taken. *)
Definition render_cards (i : nat) (sorted_events : list event) : list card * option exn :=
  render_cards_from page_keys i sorted_events.

(** Lines 144-215. *)
Definition render_page (all_events sorted_events : list event) : page :=
  match all_events with
  | [] => NoEventsYet
  | _ =>
      match sorted_events with
      | [] => NoEventsFound
      | _ => let r := render_cards 0 sorted_events in EventCards (fst r) (snd r)
      end
  end.

(** One run of [view_events_tab] with the search box holding
    [search_query] and the category box [category_filter].  The sort of
    line 140 comes before anything is put under the filter bar: when it
    raises, the run ends there. *)
Definition view_events_tab_run (search_query category_filter : string)
    : M (result page) :=
  all_events <- load_events ;;
  ret (sorted_events <-?
         sort_events strptime (filtered_events lower all_events search_query category_filter) ;;
       Returned (render_page all_events sorted_events)).

(** ** [main] (lines 220-293) and the runs of a session *)

(** What a run leaves on the screen: the form, the list, or the exception
    that ended the run before the button of the form or any card was
    rendered. *)
Inductive screen : Type :=
| FormScreen (v : form_view)
| ListScreen (p : page)
| ErrorScreen (e : exn).

(** The values a run reads from outside the session: the calendar date and
    the time of day, and what the search box and the category box hold. *)
Record run_env : Type := RunEnv {
  env_today : date_obj;
  env_clock : time_obj;
  env_query : string;
  env_filter : string
}.

Definition valid_env (env : run_env) : Prop :=
  valid_date (env_today env) ∧ valid_time (env_clock env).

(** Lines 283-291, on a session that lines 225-228 have initialised: the
    body of the tab named by [current_tab] is run, and only that one. *)
Definition main (env : run_env) (submitted : option (timestamp * form_input))
    : M screen :=
  s <- get_session ;;
  match current_tab s with
  | CreateEventTab =>
      r <- create_event_tab_run strptime_date strptime_time
             (env_today env) (env_clock env) submitted ;;
      ret (match r with Returned v => FormScreen v | Raised e => ErrorScreen e end)
  | ViewEventsTab =>
      r <- view_events_tab_run (env_query env) (env_filter env) ;;
      ret (match r with Returned p => ListScreen p | Raised e => ErrorScreen e end)
  end.

(** What the user does between two runs.  A click on Edit or Delete runs the
    callback of the button (lines 210 and 212) before [main]; the
    [RerunException] that ends [delete_event] ends the callback, and [main]
    runs on the session it left.  A press of the form button is seen by the
    form of the next run, if that run renders the form. *)
Inductive action : Type :=
| Rerun
| SubmitForm (now : timestamp) (f : form_input)
| ClickEdit (id : timestamp)
| ClickDelete (id : timestamp).

Definition run_action (a : action) (env : run_env) : M screen :=
  match a with
  | Rerun => main env None
  | SubmitForm now f => main env (Some (now, f))
  | ClickEdit id => start_edit_event id ;;; main env None
  | ClickDelete id => delete_event id ;;; main env None
  end.

(** The ids of the events whose cards are on the screen. *)
Definition shown_ids (scr : screen) : list timestamp :=
  match scr with
  | ListScreen (EventCards cards _) => map (λ c, ev_id (card_event c)) cards
  | _ => []
  end.

(** An action is open to the user when the screen shows its widget: the form
    with its button, or the card of the event with its two buttons.  The
    widgets of the form hold a date, a time and one of the categories. *)
Definition enabled (scr : screen) (a : action) : Prop :=
  match a with
  | Rerun => True
  | SubmitForm _ f => (∃ v, scr = FormScreen v) ∧ valid_form f
  | ClickEdit id | ClickDelete id => id ∈ shown_ids scr
  end.

(** The sessions and screens a user can bring about, from the first run on. *)
Inductive reachable : session_state → screen → Prop :=
| reachable_first env :
    valid_env env →
    reachable (exec (main env None) initial_session) (eval (main env None) initial_session)
| reachable_next s scr a env :
    reachable s scr → enabled scr a → valid_env env →
    reachable (exec (run_action a env) s) (eval (run_action a env) s).

(** Today's date is of the year 1000 or later. *)
Definition four_digit_env (env : run_env) : Prop := 1000 ≤ d_year (env_today env).

(** The date that the action enters in the form, if it enters one, is of
    the year 1000 or later. *)
Definition four_digit_action (a : action) : Prop :=
  match a with
  | SubmitForm _ f => four_digit_year f
  | _ => True
  end.

(** The sessions and screens a user brings about while today's date and
    the dates entered in the form are of the year 1000 or later: the dates
    that ['%Y'] writes with the four digits that it reads. *)
Inductive reachable_four_digit : session_state → screen → Prop :=
| reachable_four_digit_first env :
    valid_env env → four_digit_env env →
    reachable_four_digit
      (exec (main env None) initial_session) (eval (main env None) initial_session)
| reachable_four_digit_next s scr a env :
    reachable_four_digit s scr → enabled scr a → four_digit_action a →
    valid_env env → four_digit_env env →
    reachable_four_digit (exec (run_action a env) s) (eval (run_action a env) s).
End View.

(** An event as the form writes it. *)
Definition form_written (e : event) : Prop :=
  ∃ f, valid_form f ∧ ev_fields e = form_event_data f.

(** The keys of all buttons of a list of cards. *)
Definition button_keys (cards : list card) : list string :=
  flat_map (λ c, [edit_key c; delete_key c]) cards.

(** An event as the form writes it from a date of the year 1000 or later. *)
Definition form_written_four_digit (e : event) : Prop :=
  ∃ f, valid_form f ∧ four_digit_year f ∧ ev_fields e = form_event_data f.

(** The form inputs of a sequence of operations are dates of the year 1000
    or later, times and categories of the list. *)
Definition valid_op (o : op) : Prop :=
  match o with
  | Create _ f | Update _ _ f => valid_form f ∧ four_digit_year f
  | Delete _ => True
  end.

Definition editing_form_B : session_state :=
  {| events := Some [Event 1 (form_event_data form_A); Event 2 (form_event_data form_B)];
     editing_id := Some 2; current_tab := CreateEventTab; shown := [] |}.

(** What the store operations and the tabs read of a session: the events,
    the edit id and the tab. *)
Definition core (s : session_state) : list event * option timestamp * tab :=
  (stored s, editing_id s, current_tab s).

Definition form_B2 : form_input :=
  FormInput "Art Workshop II" (Date 2024 4 21) (Time 15 30) "Studio 6" "Workshop" "Bring paint".

(** What holds of every session a user can bring about: at most one event
    is stored; an edit id is the id of a stored event and comes with the
    form tab; on the form tab without an edit id the store is empty; the
    stored events are as the form writes them. *)
Definition session_inv (s : session_state) : Prop :=
  (length (stored s) ≤ 1)%nat ∧
  (∀ id, editing_id s = Some id → id ∈ ids (stored s) ∧ current_tab s = CreateEventTab) ∧
  (current_tab s = CreateEventTab → editing_id s = None → stored s = []) ∧
  Forall form_written (stored s).

(** The cards on the screen are cards of stored events, and the session is
    on the list tab. *)
Definition screen_inv (s : session_state) (scr : screen) : Prop :=
  ∀ id, id ∈ shown_ids scr → id ∈ ids (stored s) ∧ current_tab s = ViewEventsTab.

(** The session of a working example: the first page, the form submitted,
    the list page, Edit clicked on the card. *)
Definition env0 : run_env := RunEnv (Date 2024 6 1) (Time 8 30) "" "All Categories".

Definition run0 (a : action) : M screen :=
  run_action ascii_lower strptime strptime_ymd strptime_hm pretty a env0.

Definition session1 : session_state :=
  exec (main ascii_lower strptime strptime_ymd strptime_hm pretty env0 None) initial_session.
Definition screen1 : screen :=
  eval (main ascii_lower strptime strptime_ymd strptime_hm pretty env0 None) initial_session.

Definition session2 : session_state := exec (run0 (SubmitForm 1 form_A)) session1.
Definition screen2 : screen := eval (run0 (SubmitForm 1 form_A)) session1.

Definition session3 : session_state := exec (run0 Rerun) session2.
Definition screen3 : screen := eval (run0 Rerun) session2.

Definition session4 : session_state := exec (run0 (ClickEdit 1)) session3.
Definition screen4 : screen := eval (run0 (ClickEdit 1)) session3.

(** A form input with a date before the year 1000. *)
Definition form_old : form_input :=
  FormInput "Coronation" (Date 999 1 1) (Time 9 0) "" "Other" "".

(** * Proofs *)

(** ** Examples *)

Example add_event_create :
  exec (add_event 17 (EventData "a" "2024-05-01" "09:00" "" "Meeting" "")) initial_session
  = {| events := Some [Event 17 (EventData "a" "2024-05-01" "09:00" "" "Meeting" "")];
       editing_id := None; current_tab := ViewEventsTab;
       shown := [toast "✅ New Event created!"] |}.
Proof. reflexivity. Qed.

Example strptime_ok :
  strptime "2024-04-20 14:00" = Returned (DateTime 2024 4 20 14 0).
Proof. reflexivity. Qed.

Example strptime_bad_day :
  strptime "2023-02-29 14:00" = Raised (ValueError "time data does not match format").
Proof. reflexivity. Qed.

Example strftime_date_ex : strftime_date (Date 2024 4 20) = "2024-04-20".
Proof. reflexivity. Qed.

Example strftime_date_year_999 :
  strftime_date (Date 999 1 1) = "999-01-01" ∧ iso_date (Date 999 1 1) = "0999-01-01".
Proof. split; reflexivity. Qed.

Example strftime_time_ex : strftime_time (Time 9 5) = "09:05".
Proof. reflexivity. Qed.

Example scenario_search :
  filtered_events ascii_lower [event_A; event_B] "art" "All Categories" = [event_B].
Proof. reflexivity. Qed.

Example scenario_sort :
  sort_events strptime [event_A; event_B] = Returned [event_B; event_A].
Proof. reflexivity. Qed.

Example scenario_category :
  filtered_events ascii_lower [event_A; event_B] "" "Meeting" = [event_A].
Proof. reflexivity. Qed.

Example scenario_edit :
  let s := exec (run_ops [Create 1 (FormInput "Team Sync" (Date 2024 5 1) (Time 9 0) "" "Meeting" "");
                          Create 2 (FormInput "Art Workshop" (Date 2024 4 20) (Time 14 0) "Studio 5" "Workshop" "");
                          Update 2 3 (FormInput "Art Workshop II" (Date 2024 4 20) (Time 14 0) "Studio 5" "Workshop" "")])
                 initial_session in
  stored s = [event_A;
              Event 2 (EventData "Art Workshop II" "2024-04-20" "14:00" "Studio 5" "Workshop" "")]
  ∧ editing_id s = None.
Proof. split; reflexivity. Qed.

(** Closes a decidable goal on concrete data by evaluation. *)
Ltac decide_goal := apply (bool_decide_unpack _); vm_compute; exact I.

(** ** Running the store operations *)

Lemma load_events_run s :
  load_events s = (stored s, {| events := Some (stored s); editing_id := editing_id s;
                                current_tab := current_tab s; shown := shown s |}).
Proof. destruct s as [[l|] i t sh]; reflexivity. Qed.

Lemma add_event_run now d s :
  add_event now d s =
  (tt, {| events := Some (add_event_result now d s);
          editing_id := None;
          current_tab := ViewEventsTab;
          shown := shown s ++
            [toast (match editing_id s with
                    | Some _ => "✅ Event updated successfully!"
                    | None => "✅ New Event created!"
                    end)] |}).
Proof. destruct s as [[l|] [i|] t sh]; reflexivity. Qed.

Lemma delete_event_run id s :
  delete_event id s =
  (Raised RerunException,
   {| events := Some (filter (λ e, ev_id e ≠ id) (stored s));
      editing_id := editing_id s;
      current_tab := current_tab s;
      shown := shown s ++ [toast "🗑️ Event deleted."] |}).
Proof. destruct s as [[l|] i t sh]; reflexivity. Qed.

(** *** The index search of line 26 *)

Lemma index_from_absent i id l :
  0 ≤ i → id ∉ ids l → index_from i id l = -1.
Proof.
  unfold ids. revert i. induction l as [|e l IH]; intros i Hi Hid; simpl in *; [done|].
  rewrite not_elem_of_cons in Hid. destruct Hid as [Hne Hid].
  destruct (decide (ev_id e = id)) as [Heq|_]; [by rewrite Heq in Hne|].
  apply IH; [lia|done].
Qed.

Lemma index_from_present i id l :
  0 ≤ i → id ∈ ids l →
  ∃ (n : nat) e, index_from i id l = i + Z.of_nat n ∧ l !! n = Some e ∧
                 ev_id e = id ∧ id ∉ ids (take n l).
Proof.
  unfold ids. revert i. induction l as [|e l IH]; intros i Hi Hid; simpl in *.
  { by apply elem_of_nil in Hid. }
  destruct (decide (ev_id e = id)) as [Heq|Hne].
  - exists 0%nat, e. repeat split; [lia|done|]. simpl. apply not_elem_of_nil.
  - apply elem_of_cons in Hid as [Hid|Hid]; [congruence|].
    assert (0 ≤ i + 1) as Hi' by lia.
    destruct (IH (i + 1) Hi' Hid) as (n & e' & Hidx & Hl & He' & Hpre).
    exists (S n), e'. repeat split; [lia|done|done|].
    simpl. rewrite not_elem_of_cons. split; [congruence|done].
Qed.

Lemma index_of_absent id l : id ∉ ids l → index_of id l = -1.
Proof. apply index_from_absent. lia. Qed.

Lemma index_of_present id l :
  id ∈ ids l →
  ∃ (n : nat) e, index_of id l = Z.of_nat n ∧ l !! n = Some e ∧
                 ev_id e = id ∧ id ∉ ids (take n l).
Proof.
  intros Hid. assert (0 ≤ 0) as H0 by lia.
  destruct (index_from_present 0 id l H0 Hid) as (n & e & H & ?).
  exists n, e. split; [unfold index_of; lia|done].
Qed.

(** The three cases of [add_event]. *)
Lemma add_event_result_create now d s :
  editing_id s = None → add_event_result now d s = stored s ++ [Event now d].
Proof. unfold add_event_result. by intros ->. Qed.

Lemma add_event_result_absent now d s id :
  editing_id s = Some id → id ∉ ids (stored s) → add_event_result now d s = stored s.
Proof.
  unfold add_event_result. intros -> Hid.
  rewrite (index_of_absent _ _ Hid). by destruct (decide (-1 ≠ -1)).
Qed.

Lemma add_event_result_present now d s id :
  editing_id s = Some id → id ∈ ids (stored s) →
  ∃ (n : nat) e, stored s !! n = Some e ∧ ev_id e = id ∧ (id ∉ ids (take n (stored s))) ∧
                 add_event_result now d s = <[n := Event id d]> (stored s).
Proof.
  unfold add_event_result. intros -> Hid.
  destruct (index_of_present _ _ Hid) as (n & e & Hidx & Hl & He & Hpre).
  exists n, e. repeat split; try done.
  rewrite Hidx. destruct (decide (Z.of_nat n ≠ -1)) as [_|Hn]; [|lia].
  by rewrite Nat2Z.id.
Qed.

Lemma add_event_stored now d s :
  stored (exec (add_event now d) s) = add_event_result now d s.
Proof. unfold exec. by rewrite add_event_run. Qed.

Lemma add_event_editing_id now d s :
  editing_id (exec (add_event now d) s) = None.
Proof. unfold exec. by rewrite add_event_run. Qed.

Lemma add_event_shown now d s :
  ∃ msg, shown (exec (add_event now d) s) = shown s ++ [toast msg].
Proof. unfold exec. rewrite add_event_run. simpl. eauto. Qed.

Lemma delete_event_stored id s :
  stored (exec (delete_event id) s) = filter (λ e, ev_id e ≠ id) (stored s).
Proof. unfold exec. by rewrite delete_event_run. Qed.

Lemma filter_id_absent id (l : list event) :
  id ∉ ids l → filter (λ e, ev_id e ≠ id) l = l.
Proof.
  unfold ids. induction l as [|e l IH]; simpl; [done|].
  rewrite not_elem_of_cons. intros [Hne Hid].
  rewrite filter_cons_True by congruence. by rewrite IH.
Qed.

Lemma filter_id_unique id (l1 l2 : list event) e :
  ev_id e = id → NoDup (ids (l1 ++ e :: l2)) →
  filter (λ e, ev_id e ≠ id) (l1 ++ e :: l2) = l1 ++ l2.
Proof.
  unfold ids. intros He Hnd. rewrite fmap_app in Hnd. simpl in Hnd.
  apply NoDup_app in Hnd as (Hnd1 & Hdisj & Hnd2).
  apply NoDup_cons in Hnd2 as [Hnot2 _].
  assert (id ∉ ids l1) as Hnot1.
  { intros Hin. apply (Hdisj _ Hin). rewrite He. apply list_elem_of_here. }
  rewrite filter_app, filter_cons_False by (intros Hne; by apply Hne).
  rewrite He in Hnot2. by rewrite !filter_id_absent.
Qed.

(** ** The store operations against the specification *)

(** C2, as stated, fails: with a pending edit id that no stored event has,
    submitting the form appends nothing. *)
Lemma submit_unresolved_creates_nothing :
  editing_id editing_absent = Some 7 ∧ (7 ∉ ids (stored editing_absent)) ∧
  ¬ ∃ id, stored (exec (add_event 9 sample_data) editing_absent)
          = stored editing_absent ++ [Event id sample_data].
Proof.
  split; [done|]. split.
  - decide_goal.
  - intros [id Hid]. vm_compute in Hid. discriminate.
Qed.

(** C2 (amended).  [add_event] decides by the edit session alone.  With an
    edit id that resolves, the first event with that id is replaced in place
    by the form data under the same id; with an edit id that does not
    resolve, the store is left as it is; with no edit id, the form data is
    appended under the clock value as id.  In every case the edit session is
    cleared afterwards. *)
Theorem submit_dispatch now d s :
  let s' := exec (add_event now d) s in
  editing_id s' = None ∧
  match editing_id s with
  | Some id =>
      (id ∈ ids (stored s) →
         ∃ (n : nat) e, stored s !! n = Some e ∧ ev_id e = id ∧
                        (id ∉ ids (take n (stored s))) ∧
                        stored s' = <[n := Event id d]> (stored s)) ∧
      (id ∉ ids (stored s) → stored s' = stored s)
  | None => stored s' = stored s ++ [Event now d]
  end.
Proof.
  intros s'. subst s'. split; [apply add_event_editing_id|].
  rewrite add_event_stored.
  destruct (editing_id s) as [id|] eqn:Hed.
  - split; intros Hid.
    + by apply add_event_result_present.
    + by apply (add_event_result_absent _ _ _ id).
  - by apply add_event_result_create.
Qed.

Lemma submit_dispatch_witness :
  stored (exec (add_event 9 sample_data) editing_B) = [event_A; Event 2 sample_data].
Proof.
  destruct (submit_dispatch 9 sample_data editing_B) as [_ [Hpresent _]].
  destruct Hpresent as (n & e & Hn & He & Hpre & ->).
  - decide_goal.
  - destruct n as [|[|n]]; simpl in *; try done.
    injection Hn as <-. by vm_compute in He.
Defined.

(** C3, as stated, fails: an update under an id that is not in the store
    reports no error; the user is shown the notice of a successful update. *)
Lemma update_absent_reports_success :
  (7 ∉ ids (stored editing_absent)) ∧
  shown (exec (add_event 9 sample_data) editing_absent)
    = [toast "✅ Event updated successfully!"] ∧
  ¬ reports_error editing_absent (exec (add_event 9 sample_data) editing_absent).
Proof.
  split; [decide_goal|]. split; [reflexivity|].
  intros [msg Hmsg]. vm_compute in Hmsg. discriminate.
Qed.

(** C3 (amended).  An update under an id that is not in the store raises
    nothing and reports no error; the store is unchanged: same events, same
    order, same fields. *)
Theorem update_absent_unchanged now d s id :
  editing_id s = Some id → id ∉ ids (stored s) →
  let s' := exec (add_event now d) s in
  stored s' = stored s ∧ ¬ reports_error s s'.
Proof.
  intros Hed Hid s'. subst s'. split.
  - rewrite add_event_stored. by apply (add_event_result_absent _ _ _ id).
  - intros [msg Hmsg]. destruct (add_event_shown now d s) as [msg' Hmsg'].
    rewrite Hmsg' in Hmsg. apply app_inv_head in Hmsg. discriminate.
Qed.

Lemma update_absent_unchanged_witness :
  stored (exec (add_event 9 sample_data) editing_absent) = [event_A] ∧
  ¬ reports_error editing_absent (exec (add_event 9 sample_data) editing_absent).
Proof.
  apply (update_absent_unchanged 9 sample_data editing_absent 7).
  - reflexivity.
  - decide_goal.
Defined.

(** C6.  An update under an id that is in the store replaces the fields of
    the (first) event with that id by the supplied data, under the same id and
    at the same position; the length of the store and every other position
    are unchanged.  The title plays no part in [add_event]. *)
Theorem update_in_place now d s id :
  editing_id s = Some id → id ∈ ids (stored s) → title d ≠ "" →
  let s' := exec (add_event now d) s in
  ∃ (n : nat) e,
    stored s !! n = Some e ∧ ev_id e = id ∧ (id ∉ ids (take n (stored s))) ∧
    stored s' !! n = Some (Event id d) ∧
    length (stored s') = length (stored s) ∧
    ∀ j : nat, j ≠ n → stored s' !! j = stored s !! j.
Proof.
  intros Hed Hid _ s'. subst s'. rewrite add_event_stored.
  destruct (add_event_result_present now d s id Hed Hid) as (n & e & Hn & He & Hpre & ->).
  exists n, e. repeat split; try done.
  - apply list_lookup_insert_eq. by apply lookup_lt_Some in Hn.
  - apply length_insert.
  - intros j Hj. by apply list_lookup_insert_ne.
Qed.

Lemma update_in_place_witness :
  ∃ (n : nat) e,
    stored editing_B !! n = Some e ∧ ev_id e = 2 ∧
    (2 ∉ ids (take n (stored editing_B))) ∧
    stored (exec (add_event 9 sample_data) editing_B) !! n = Some (Event 2 sample_data) ∧
    length (stored (exec (add_event 9 sample_data) editing_B)) = length (stored editing_B) ∧
    ∀ j : nat, j ≠ n →
      stored (exec (add_event 9 sample_data) editing_B) !! j = stored editing_B !! j.
Proof.
  apply (update_in_place 9 sample_data editing_B 2).
  - reflexivity.
  - decide_goal.
  - discriminate.
Defined.

(** C7.  Submitting the form with an empty title is rejected: the user is
    shown the error "Event Title is required!", [add_event] is not reached,
    and the session, the store in it included, is unchanged. *)
Theorem create_empty_title_rejected now f s :
  event_title f = "" →
  let s' := exec (create_event_tab now f) s in
  reports_error s s' ∧
  shown s' = shown s ++ [error "Event Title is required!"] ∧
  events s' = events s ∧ editing_id s' = editing_id s ∧ current_tab s' = current_tab s.
Proof.
  intros Ht s'. subst s'. unfold create_event_tab.
  destruct (decide (event_title f = "")) as [_|Hne]; [|done].
  repeat split. by exists "Event Title is required!".
Qed.

Lemma create_empty_title_rejected_witness :
  events (exec (create_event_tab 9 (FormInput "" (Date 2024 5 1) (Time 9 0) "" "Meeting" ""))
               viewing_AB) = Some [event_A; event_B].
Proof.
  destruct (create_empty_title_rejected 9
              (FormInput "" (Date 2024 5 1) (Time 9 0) "" "Meeting" "") viewing_AB)
    as (_ & _ & Hev & _); [reflexivity|].
  exact Hev.
Defined.

(** C8, as stated, fails: [delete_event] returns no boolean, neither when
    the id is present nor when it is absent.  The call does not return at
    all: it is left by the [RerunException] of [st.rerun()] (line 47). *)
Lemma delete_event_never_returns :
  (1 ∈ ids (stored viewing_AB)) ∧ (7 ∉ ids (stored viewing_AB)) ∧
  eval (delete_event 1) viewing_AB = Raised RerunException ∧
  eval (delete_event 7) viewing_AB = Raised RerunException ∧
  ¬ (∃ b, eval (delete_event 1) viewing_AB = Returned (PyBool b)) ∧
  ¬ (∃ b, eval (delete_event 7) viewing_AB = Returned (PyBool b)).
Proof.
  split; [decide_goal|]. split; [decide_goal|].
  split; [reflexivity|]. split; [reflexivity|].
  split; intros [b Hb]; discriminate.
Qed.

(** C8 (amended).  [delete_event] returns no value, whatever the id: after
    the store is saved and the toast shown, the call is left by the
    [RerunException] of [st.rerun()].  It shows no error notice and leaves
    the edit id and the tab as they are.  With an absent id the store is
    unchanged.  Otherwise the store keeps, in their order, exactly the events
    whose id differs; when the ids of the store are unique, that removes
    exactly one event. *)
Theorem delete_event_effect id s :
  let s' := exec (delete_event id) s in
  eval (delete_event id) s = Raised RerunException ∧
  (∀ v, eval (delete_event id) s ≠ Returned v) ∧
  ¬ reports_error s s' ∧
  shown s' = shown s ++ [toast "🗑️ Event deleted."] ∧
  editing_id s' = editing_id s ∧ current_tab s' = current_tab s ∧
  stored s' = filter (λ e, ev_id e ≠ id) (stored s) ∧
  (∀ e, e ∈ stored s' ↔ e ∈ stored s ∧ ev_id e ≠ id) ∧
  (id ∉ ids (stored s) → stored s' = stored s) ∧
  (id ∈ ids (stored s) → NoDup (ids (stored s)) →
     ∃ l1 e l2, stored s = l1 ++ e :: l2 ∧ ev_id e = id ∧ stored s' = l1 ++ l2).
Proof.
  intros s'. subst s'. rewrite delete_event_stored.
  split; [unfold eval; by rewrite delete_event_run|].
  split; [intros v; unfold eval; by rewrite delete_event_run|].
  split.
  { intros [msg Hmsg]. unfold exec in Hmsg. rewrite delete_event_run in Hmsg.
    simpl in Hmsg. apply app_inv_head in Hmsg. discriminate. }
  split; [unfold exec; by rewrite delete_event_run|].
  split; [unfold exec; by rewrite delete_event_run|].
  split; [unfold exec; by rewrite delete_event_run|].
  split; [done|]. split; [|split].
  - intros e. rewrite list_elem_of_filter. tauto.
  - apply filter_id_absent.
  - intros Hid Hnd. unfold ids in Hid. apply list_elem_of_fmap in Hid as (e & He & Hin).
    apply list_elem_of_split in Hin as (l1 & l2 & Hl).
    exists l1, e, l2. rewrite Hl in *. repeat split; [done|].
    by apply filter_id_unique.
Qed.

Lemma delete_event_effect_witness :
  stored (exec (delete_event 1) viewing_AB) = [event_B] ∧
  stored (exec (delete_event 7) viewing_AB) = [event_A; event_B].
Proof.
  split.
  - destruct (delete_event_effect 1 viewing_AB) as (_ & _ & _ & _ & _ & _ & _ & _ & _ & Hone).
    destruct Hone as (l1 & e & l2 & Hl & He & ->).
    + decide_goal.
    + decide_goal.
    + destruct l1 as [|a [|b l1]]; simpl in Hl.
      * by injection Hl as <- <-.
      * injection Hl as <- <- <-. by vm_compute in He.
      * injection Hl as _ _ Hl. by destruct l1.
  - destruct (delete_event_effect 7 viewing_AB) as (_ & _ & _ & _ & _ & _ & _ & _ & Hnone & _).
    apply Hnone. decide_goal.
Defined.

(** C10.  When the edit id is set and no stored event has it, submitting the
    form leaves the list of events as it is and clears the edit id. *)
Theorem submit_unresolved_clears now d s id :
  editing_id s = Some id → id ∉ ids (stored s) →
  let s' := exec (add_event now d) s in
  stored s' = stored s ∧ editing_id s' = None.
Proof.
  intros Hed Hid s'. subst s'. split; [|apply add_event_editing_id].
  rewrite add_event_stored. by apply (add_event_result_absent _ _ _ id).
Qed.

Lemma submit_unresolved_clears_witness :
  stored (exec (add_event 9 sample_data) editing_absent) = stored editing_absent ∧
  editing_id (exec (add_event 9 sample_data) editing_absent) = None.
Proof.
  apply (submit_unresolved_clears 9 sample_data editing_absent 7).
  - reflexivity.
  - decide_goal.
Defined.

(** ** Uniqueness of ids *)

Lemma exec_bind {A B} (m : M A) (k : A → M B) s :
  exec (bind m k) s = exec (k (eval m s)) (exec m s).
Proof. reflexivity. Qed.

Lemma ids_insert_same (l : list event) (n : nat) e d :
  l !! n = Some e → ids (<[n := Event (ev_id e) d]> l) = ids l.
Proof.
  intros Hn. unfold ids. rewrite list_fmap_insert. simpl.
  apply list_insert_id. by rewrite list_lookup_fmap, Hn.
Qed.

(** [add_event] leaves the ids as they are, or appends the clock value. *)
Lemma add_event_ids now d s :
  ids (stored (exec (add_event now d) s)) =
  match editing_id s with
  | Some _ => ids (stored s)
  | None => ids (stored s) ++ [now]
  end.
Proof.
  rewrite add_event_stored. destruct (editing_id s) as [id|] eqn:Hed.
  - destruct (decide (id ∈ ids (stored s))) as [Hid|Hid].
    + destruct (add_event_result_present now d s id Hed Hid) as (n & e & Hn & <- & _ & ->).
      by apply ids_insert_same.
    + by rewrite (add_event_result_absent now d s id).
  - rewrite add_event_result_create by done. unfold ids. by rewrite fmap_app.
Qed.

Lemma create_event_tab_ids now f s :
  ids (stored (exec (create_event_tab now f) s)) = ids (stored s) ∨
  (editing_id s = None ∧
   ids (stored (exec (create_event_tab now f) s)) = ids (stored s) ++ [now]).
Proof.
  unfold create_event_tab. destruct (decide (event_title f = "")); [by left|].
  rewrite add_event_ids. destruct (editing_id s); [by left|by right].
Qed.

Lemma run_op_ids o s :
  sublist (ids (stored (exec (run_op o) s))) (ids (stored s) ++ create_clocks [o]).
Proof.
  destruct o as [now f|id now f|id]; simpl.
  - destruct (create_event_tab_ids now f s) as [->|[_ ->]]; [|done].
    apply sublist_inserts_r. done.
  - rewrite app_nil_r, exec_bind.
    destruct (create_event_tab_ids now f (exec (start_edit_event id) s)) as [->|[Hed _]];
      [done|discriminate].
  - rewrite app_nil_r, exec_bind. unfold exec at 1. simpl.
    rewrite delete_event_stored. unfold ids. apply fmap_sublist, sublist_filter.
Qed.

Lemma create_clocks_cons o os :
  create_clocks (o :: os) = create_clocks [o] ++ create_clocks os.
Proof. by destruct o. Qed.

Lemma run_ops_ids os s :
  sublist (ids (stored (exec (run_ops os) s))) (ids (stored s) ++ create_clocks os).
Proof.
  revert s. induction os as [|o os IH]; intros s.
  - simpl. by rewrite app_nil_r.
  - rewrite create_clocks_cons, app_assoc. simpl run_ops. rewrite exec_bind.
    etrans; [apply IH|]. apply sublist_app; [apply run_op_ids|done].
Qed.

(** The ids stay unique as long as every creation reads a clock value that
    no earlier creation has read. *)
Lemma unique_ids_when_clock_distinct os :
  NoDup (create_clocks os) →
  NoDup (ids (stored (exec (run_ops os) initial_session))).
Proof.
  intros Hnd. eapply sublist_NoDup; [|apply run_ops_ids]. done.
Qed.

(** The condition on the clock is needed when the handlers are called one
    after the other outside the pages: the id of a new event is the clock
    value alone (line 33), and nothing compares it with the ids in the
    store. *)
Remark equal_clock_duplicates_id :
  let s := exec (run_ops [Create 1000 form_A; Create 1000 form_B]) initial_session in
  stored s = [Event 1000 (form_event_data form_A); Event 1000 (form_event_data form_B)] ∧
  ids (stored s) = [1000; 1000] ∧
  ¬ NoDup (ids (stored s)).
Proof.
  split; [reflexivity|]. split; [reflexivity|].
  intros Hnd. vm_compute in Hnd. apply NoDup_cons in Hnd as [Hin _].
  apply Hin. apply list_elem_of_here.
Qed.

(** ** Search and filter *)

Lemma append_String c (s t : string) : String c s +:+ t = String c (s +:+ t).
Proof. reflexivity. Qed.

Lemma append_empty (t : string) : "" +:+ t = t.
Proof. reflexivity. Qed.

Lemma prefix_spec (n h : string) :
  String.prefix n h = true ↔ ∃ post, h = n +:+ post.
Proof.
  revert h. induction n as [|c n IH]; intros h.
  - split; [intros _; by exists h|intros _; by destruct h].
  - destruct h as [|c' h]; simpl.
    + split; [done|]. by intros [post Hpost].
    + destruct (Ascii.ascii_dec c c') as [->|Hne].
      * rewrite IH. split; intros [post Hpost]; exists post;
          rewrite append_String in *; congruence.
      * split; [done|]. intros [post Hpost]. rewrite append_String in Hpost. congruence.
Qed.

Lemma str_in_spec (n h : string) : str_in n h = true ↔ substring_of n h.
Proof.
  unfold substring_of. induction h as [|c h IH]; cbn [str_in].
  - rewrite orb_false_r, prefix_spec. split.
    + intros [post Hpost]. by exists "", post.
    + intros (pre & post & Hh). destruct pre; [|done]. by exists post.
  - rewrite orb_true_iff, prefix_spec, IH. split.
    + intros [[post Hpost]|(pre & post & Hh)].
      * by exists "", post.
      * exists (String c pre), post. by rewrite append_String, Hh.
    + intros (pre & post & Hh). destruct pre as [|c' pre].
      * left. by exists post.
      * right. exists pre, post. rewrite append_String in Hh. congruence.
Qed.

Lemma str_in_empty_l (h : string) : str_in "" h = true.
Proof. apply str_in_spec. by exists "", h. Qed.

Lemma str_in_empty_r (n : string) : str_in n "" = true → n = "".
Proof.
  intros (pre & post & Hh)%str_in_spec.
  destruct pre; [|done]. by destruct n.
Qed.

(** The loop that appends the matching events one by one builds the selection. *)
Lemma append_loop_selects {A} (p : A → bool) (l acc : list A) :
  ∃ l', fold_left (λ filtered x, if p x then filtered ++ [x] else filtered) l acc
        = acc ++ l' ∧ selects (λ x, p x = true) l l'.
Proof.
  revert acc. induction l as [|x l IH]; intros acc; simpl.
  - exists []. split; [by rewrite app_nil_r|constructor].
  - destruct (p x) eqn:Hp.
    + destruct (IH (acc ++ [x])) as (l' & -> & Hsel).
      exists (x :: l'). split; [by rewrite <- app_assoc|by constructor].
    + destruct (IH acc) as (l' & -> & Hsel).
      exists l'. split; [done|]. constructor; [congruence|done].
Qed.

Lemma selects_iff {A} (P Q : A → Prop) l l' :
  (∀ x, P x ↔ Q x) → selects P l l' → selects Q l l'.
Proof.
  intros HPQ. induction 1; constructor; try done; by rewrite <- HPQ.
Qed.

(** A selection is determined by the list and the predicate. *)
Lemma selects_unique {A} (P : A → Prop) l l1 l2 :
  selects P l l1 → selects P l l2 → l1 = l2.
Proof.
  intros H1. revert l2.
  induction H1 as [|x l l' HP Hsel IH|x l l' HP Hsel IH]; intros l2 H2;
    inversion H2; subst; try done.
  - f_equal. by apply IH.
  - by apply IH.
Qed.

Lemma selects_elem_of {A} (P : A → Prop) l l' x :
  selects P l l' → x ∈ l' ↔ x ∈ l ∧ P x.
Proof.
  intros Hsel. induction Hsel as [|y l l' HP Hsel IH|y l l' HP Hsel IH].
  - split; [by intros ?%elem_of_nil|by intros [?%elem_of_nil _]].
  - rewrite !elem_of_cons, IH. split.
    + intros [->|[? ?]]; auto.
    + intros [[->|?] ?]; auto.
  - rewrite elem_of_cons, IH. split.
    + intros [? ?]; auto.
    + intros [[->|?] ?]; [contradiction|auto].
Qed.

Section QueryProofs.
Variable lower : string → string.
Hypothesis lower_empty : lower "" = "".
Hypothesis lower_nonempty : ∀ s, lower s = "" → s = "".

Lemma matches_search_spec q e :
  matches_search lower q e = true ↔
  (q = "" ∨
   substring_of (lower q) (lower (title (ev_fields e))) ∨
   substring_of (lower q) (lower (description (ev_fields e))) ∨
   substring_of (lower q) (lower (location (ev_fields e)))).
Proof.
  unfold matches_search. rewrite !orb_true_iff, !str_in_spec. split.
  - tauto.
  - intros [->|H]; [|tauto]. left; left. rewrite lower_empty.
    apply str_in_spec, str_in_empty_l.
Qed.

Lemma matches_category_spec cf e :
  matches_category cf e = true ↔
  (cf = "All Categories" ∨ category (ev_fields e) = cf).
Proof.
  unfold matches_category. by rewrite orb_true_iff, !bool_decide_eq_true.
Qed.

Lemma filtered_events_selects all q cf :
  selects (matches_spec lower q cf) all (filtered_events lower all q cf).
Proof.
  assert (selects (matches_spec lower q cf) all
            (fold_left
               (λ filtered event,
                  if matches_search lower q event && matches_category cf event
                  then filtered ++ [event] else filtered) all [])) as Hloop.
  { destruct (append_loop_selects
                (λ e, matches_search lower q e && matches_category cf e) all [])
      as (l' & -> & Hsel).
    simpl. eapply selects_iff; [|exact Hsel].
    intros e. simpl. unfold matches_spec.
    rewrite andb_true_iff, matches_search_spec, matches_category_spec. tauto. }
  destruct all; [constructor|exact Hloop].
Qed.

Lemma matches_search_title_only q e :
  q ≠ "" → description (ev_fields e) = "" → location (ev_fields e) = "" →
  matches_search lower q e = true ↔ substring_of (lower q) (lower (title (ev_fields e))).
Proof.
  intros Hq Hd Hl. unfold matches_search. rewrite Hd, Hl, lower_empty.
  rewrite !orb_true_iff, str_in_spec. split; [|tauto].
  intros [[H|H]|H]; [done| |]; apply str_in_empty_r, lower_nonempty in H; done.
Qed.
End QueryProofs.

Lemma ascii_lower_nonempty s : ascii_lower s = "" → s = "".
Proof. by destruct s. Qed.

(** C4.  The filter of [view_events_tab] returns exactly the events, in
    their order, whose category passes the filter (the filter is
    "All Categories" or equals the category) and whose title, description or
    location contains the lower-cased query when lower-cased, an empty query
    matching everything.  For an event whose description and location are
    empty, a non-empty query matches exactly when the lower-cased title
    contains it.  All functions involved are total: no field value, empty or
    not, makes the matching fail.  [lower] stands for [str.lower]: it maps
    the empty string, and nothing else, to the empty string. *)
Theorem search_and_filter_spec (lower : string → string) :
  lower "" = "" → (∀ s, lower s = "" → s = "") →
  ∀ (all : list event) (q cf : string),
    selects (matches_spec lower q cf) all (filtered_events lower all q cf) ∧
    (∀ e, e ∈ filtered_events lower all q cf ↔ e ∈ all ∧ matches_spec lower q cf e) ∧
    (∀ e, q ≠ "" → description (ev_fields e) = "" → location (ev_fields e) = "" →
          (matches_search lower q e = true ↔
           substring_of (lower q) (lower (title (ev_fields e)))) ∧
          (e ∈ filtered_events lower [e] q "All Categories" ↔
           substring_of (lower q) (lower (title (ev_fields e))))).
Proof.
  intros H0 H1 all q cf.
  split; [by apply filtered_events_selects|].
  split; [intros e; eapply selects_elem_of; by apply filtered_events_selects|].
  intros e Hq Hd Hl. split; [by apply matches_search_title_only|].
  rewrite (selects_elem_of _ _ _ _ (filtered_events_selects lower H0 [e] q _)).
  rewrite <- (matches_search_title_only lower H0 H1 q e Hq Hd Hl).
  rewrite matches_search_spec by done. unfold matches_spec.
  rewrite list_elem_of_singleton. tauto.
Qed.

Lemma search_and_filter_spec_witness :
  selects (matches_spec ascii_lower "art" "All Categories") [event_A; event_B]
    (filtered_events ascii_lower [event_A; event_B] "art" "All Categories") ∧
  filtered_events ascii_lower [event_A; event_B] "art" "All Categories" = [event_B].
Proof.
  split; [|reflexivity].
  apply (search_and_filter_spec ascii_lower).
  - reflexivity.
  - intros s. destruct s; [reflexivity|discriminate].
Defined.

(** ** The stable sort *)

Lemma Forall_filter_keep {A} (P Q : A → Prop) `{∀ x, Decision (Q x)} (l : list A) :
  Forall P l → Forall P (filter Q l).
Proof.
  rewrite !Forall_forall. intros HP x Hx.
  apply list_elem_of_filter in Hx as [_ Hx]. by apply HP.
Qed.

Section SortedProofs.
Context {A K : Type} `{EqDecision K}.
Variable ltb : K → K → bool.
Variable key : A → result K.

Hypothesis ltb_irrefl : ∀ a, ltb a a = false.
Hypothesis ltb_asym : ∀ a b, ltb a b = true → ltb b a = false.
Hypothesis ltb_connex : ∀ a b c, ltb a c = true → ltb a b = true ∨ ltb b c = true.

Local Abbreviation pair_le := (@pair_le A K ltb).
Local Abbreviation coherent := (@coherent A K key).

Lemma decorate_Returned (l : list A) (ps : list (K * A)) :
  decorate key l = Returned ps → map snd ps = l ∧ Forall coherent ps.
Proof.
  revert ps. induction l as [|x l IH]; intros ps; simpl.
  - intros [= <-]. by split.
  - destruct (key x) as [k|e] eqn:Hk; [|done].
    destruct (decorate key l) as [qs|e]; [|done].
    intros [= <-]. destruct (IH qs eq_refl) as [Hmap Hco].
    split; [simpl; by rewrite Hmap|]. by constructor.
Qed.

Lemma decorate_coherent (ps : list (K * A)) :
  Forall coherent ps → decorate key (map snd ps) = Returned ps.
Proof.
  induction 1 as [|[k x] ps Hp _ IH]; simpl; [done|].
  unfold coherent in Hp. simpl in Hp. by rewrite Hp, IH.
Qed.

Lemma decorate_total (l : list A) :
  Forall (λ x, ∃ k, key x = Returned k) l → ∃ ps, decorate key l = Returned ps.
Proof.
  induction 1 as [|x l [k Hk] _ [ps IH]]; simpl; [by exists []|].
  rewrite Hk, IH. by eexists.
Qed.

Lemma decorate_raises (l : list A) :
  Exists (λ x, ∃ e, key x = Raised e) l → ∃ e, decorate key l = Raised e.
Proof.
  induction 1 as [x l [e He]|x l _ [e IH]]; simpl.
  - rewrite He. by exists e.
  - destruct (key x) as [k|e']; [|by exists e']. rewrite IH. by exists e.
Qed.

Lemma insert_by_perm (p : K * A) (ps : list (K * A)) : insert_by ltb p ps ≡ₚ p :: ps.
Proof.
  induction ps as [|q qs IH]; simpl; [done|].
  destruct (ltb (fst q) (fst p)); [|done].
  rewrite IH. apply perm_swap.
Qed.

Lemma sort_pairs_perm (ps : list (K * A)) : sort_pairs ltb ps ≡ₚ ps.
Proof.
  induction ps as [|p ps IH]; simpl; [done|].
  by rewrite insert_by_perm, IH.
Qed.

Lemma insert_by_HdRel (q p : K * A) (ps : list (K * A)) :
  pair_le q p → HdRel pair_le q ps → HdRel pair_le q (insert_by ltb p ps).
Proof.
  intros Hqp Hq. destruct ps as [|r rs]; simpl; [by constructor|].
  inversion Hq; subst. destruct (ltb (fst r) (fst p)); by constructor.
Qed.

Lemma insert_by_Sorted (p : K * A) (ps : list (K * A)) :
  Sorted pair_le ps → Sorted pair_le (insert_by ltb p ps).
Proof.
  induction 1 as [|q qs Hqs IH Hq]; simpl; [by repeat constructor|].
  destruct (ltb (fst q) (fst p)) eqn:Hlt.
  - constructor; [done|]. apply insert_by_HdRel; [|done].
    by apply ltb_asym.
  - constructor; [by constructor|]. by constructor.
Qed.

Lemma sort_pairs_Sorted (ps : list (K * A)) : Sorted pair_le (sort_pairs ltb ps).
Proof.
  induction ps as [|p ps IH]; simpl; [constructor|]. by apply insert_by_Sorted.
Qed.

Lemma pair_le_trans : Transitive pair_le.
Proof.
  intros p q r Hpq Hqr. unfold pair_le in *.
  destruct (ltb (fst r) (fst p)) eqn:Hlt; [|done].
  destruct (ltb_connex _ (fst q) _ Hlt); congruence.
Qed.

Lemma sort_pairs_StronglySorted (ps : list (K * A)) : StronglySorted pair_le (sort_pairs ltb ps).
Proof.
  apply Sorted_StronglySorted; [apply pair_le_trans|apply sort_pairs_Sorted].
Qed.

(** Stability: the elements of one key keep their order. *)
Lemma insert_by_filter (k : K) (p : K * A) (ps : list (K * A)) :
  filter (λ q : K * A, fst q = k) (insert_by ltb p ps) = filter (λ q : K * A, fst q = k) (p :: ps).
Proof.
  induction ps as [|q qs IH]; simpl; [done|].
  destruct (ltb (fst q) (fst p)) eqn:Hlt; [|done].
  rewrite (filter_cons _ q), IH, !filter_cons.
  destruct (decide (fst q = k)) as [Hq|Hq], (decide (fst p = k)) as [Hp|Hp]; try done.
  rewrite Hq, Hp, ltb_irrefl in Hlt. done.
Qed.

Lemma sort_pairs_filter (k : K) (ps : list (K * A)) :
  filter (λ q : K * A, fst q = k) (sort_pairs ltb ps) = filter (λ q : K * A, fst q = k) ps.
Proof.
  induction ps as [|p ps IH]; simpl; [done|].
  by rewrite insert_by_filter, !filter_cons, IH.
Qed.

(** A sorted list is left as it is. *)
Lemma sort_pairs_fixed (ps : list (K * A)) : Sorted pair_le ps → sort_pairs ltb ps = ps.
Proof.
  induction 1 as [|p ps Hps IH Hp]; simpl; [done|].
  rewrite IH. destruct Hp as [|q qs Hpq]; simpl; [done|].
  unfold pair_le in Hpq. by rewrite Hpq.
Qed.

Lemma sort_pairs_idempotent (ps : list (K * A)) :
  sort_pairs ltb (sort_pairs ltb ps) = sort_pairs ltb ps.
Proof. apply sort_pairs_fixed, sort_pairs_Sorted. Qed.

Lemma sort_pairs_coherent (ps : list (K * A)) :
  Forall coherent ps → Forall coherent (sort_pairs ltb ps).
Proof. intros H. by rewrite sort_pairs_perm. Qed.

Lemma sorted_Returned (l : list A) (ps : list (K * A)) :
  decorate key l = Returned ps →
  sorted ltb key l = Returned (map snd (sort_pairs ltb ps)).
Proof. unfold sorted. by intros ->. Qed.

Lemma sorted_idempotent (l ys : list A) :
  sorted ltb key l = Returned ys → sorted ltb key ys = Returned ys.
Proof.
  unfold sorted. destruct (decorate key l) as [ps|e] eqn:Hdec; [|done].
  intros [= <-]. apply decorate_Returned in Hdec as [_ Hco].
  rewrite decorate_coherent by by apply sort_pairs_coherent.
  by rewrite sort_pairs_idempotent.
Qed.

Hypothesis ltb_antisym : ∀ a b, ltb a b = false → ltb b a = false → a = b.

Lemma filter_key_nil (qs : list (K * A)) :
  (∀ k, filter (λ q : K * A, fst q = k) qs = []) → qs = [].
Proof.
  destruct qs as [|q qs]; [done|]. intros H. specialize (H (fst q)).
  by rewrite filter_cons_True in H.
Qed.

Lemma coherent_inj (qs rs : list (K * A)) :
  Forall coherent qs → Forall coherent rs → map snd qs = map snd rs → qs = rs.
Proof.
  intros Hq. revert rs. induction Hq as [|[k x] qs Hk _ IH]; intros rs Hr Hmap.
  - by destruct rs.
  - destruct Hr as [|[k' x'] rs Hk' Hr]; [done|]. simpl in Hmap.
    injection Hmap as -> Hmap. unfold coherent in Hk, Hk'. simpl in Hk, Hk'.
    rewrite Hk in Hk'. injection Hk' as ->. f_equal. by apply IH.
Qed.

(** A list that is sorted and keeps the elements of each key in their order
    is the one list with these two properties: every stable sort returns what
    [sort_pairs] returns. *)
Lemma stable_sorted_unique (ps qs : list (K * A)) :
  StronglySorted pair_le ps → StronglySorted pair_le qs →
  (∀ k, filter (λ q : K * A, fst q = k) ps = filter (λ q : K * A, fst q = k) qs) →
  ps = qs.
Proof.
  intros Hps. revert qs.
  induction Hps as [|p ps Hps IH Hp]; intros qs Hqs Hfil.
  - symmetry. apply filter_key_nil. intros k. by rewrite <- Hfil.
  - destruct Hqs as [|q qs Hqs Hq].
    { specialize (Hfil (fst p)). by rewrite filter_cons_True in Hfil. }
    assert (p = q) as <-.
    { pose proof (Hfil (fst p)) as Hfp. pose proof (Hfil (fst q)) as Hfq.
      rewrite (filter_cons_True _ p) in Hfp by done.
      rewrite (filter_cons_True _ q) in Hfq by done.
      destruct (decide (fst q = fst p)) as [Heq|Hne].
      - rewrite (filter_cons_True _ q) in Hfp by done. by injection Hfp.
      - rewrite (filter_cons_False _ q) in Hfp by done.
        rewrite (filter_cons_False _ p) in Hfq by done.
        assert (p ∈ qs) as Hpin.
        { apply (list_elem_of_filter (λ q : K * A, fst q = fst p)).
          rewrite <- Hfp. apply list_elem_of_here. }
        assert (q ∈ ps) as Hqin.
        { apply (list_elem_of_filter (λ r : K * A, fst r = fst q)).
          rewrite Hfq. apply list_elem_of_here. }
        rewrite Forall_forall in Hp, Hq.
        destruct Hne. apply ltb_antisym; [apply (Hp _ Hqin)|apply (Hq _ Hpin)]. }
    f_equal. apply IH; [done|]. intros k. specialize (Hfil k).
    rewrite !filter_cons in Hfil. destruct (decide (fst p = k)); [by injection Hfil|done].
Qed.

Lemma sort_pairs_unique (ps qs : list (K * A)) :
  StronglySorted pair_le qs →
  (∀ k, filter (λ q : K * A, fst q = k) qs = filter (λ q : K * A, fst q = k) ps) →
  qs = sort_pairs ltb ps.
Proof.
  intros Hqs Hfil. apply stable_sorted_unique; [done|apply sort_pairs_StronglySorted|].
  intros k. by rewrite sort_pairs_filter.
Qed.
End SortedProofs.

(** ** The order on [datetime] *)

Lemma dt_ltb_spec a b : dt_ltb a b = true ↔ dt_lt a b.
Proof.
  unfold dt_ltb, dt_lt.
  repeat (rewrite orb_true_iff || rewrite andb_true_iff).
  by rewrite !Z.ltb_lt, !Z.eqb_eq.
Qed.

Lemma dt_ltb_false a b : dt_ltb a b = false ↔ ¬ dt_lt a b.
Proof. by rewrite <- dt_ltb_spec, not_true_iff_false. Qed.

Lemma dt_ltb_irrefl a : dt_ltb a a = false.
Proof. apply dt_ltb_false. unfold dt_lt. lia. Qed.

Lemma dt_ltb_asym a b : dt_ltb a b = true → dt_ltb b a = false.
Proof. rewrite dt_ltb_spec, dt_ltb_false. unfold dt_lt. lia. Qed.

Lemma dt_ltb_connex a b c :
  dt_ltb a c = true → dt_ltb a b = true ∨ dt_ltb b c = true.
Proof. rewrite !dt_ltb_spec. unfold dt_lt. lia. Qed.

(** Two keys of which neither is earlier are the same instant. *)
Lemma dt_ltb_antisym a b : dt_ltb a b = false → dt_ltb b a = false → a = b.
Proof.
  rewrite !dt_ltb_false. unfold dt_lt. destruct a, b; simpl. intros H1 H2.
  f_equal; lia.
Qed.

(** ** The order of the keys is the order of time *)

Lemma days_before_year_succ y :
  days_before_year (y + 1) = days_before_year y + 365 + (if is_leap y then 1 else 0).
Proof.
  unfold days_before_year, is_leap.
  destruct (Z.eqb_spec (y mod 4) 0), (Z.eqb_spec (y mod 100) 0),
    (Z.eqb_spec (y mod 400) 0); simpl; Z.div_mod_to_equations; lia.
Qed.

Lemma days_before_year_mono y y' :
  y ≤ y' → days_before_year y ≤ days_before_year y'.
Proof. unfold days_before_year. intros H. Z.div_mod_to_equations. lia. Qed.

Ltac month_cases m :=
  let H := fresh in
  assert (m = 1 ∨ m = 2 ∨ m = 3 ∨ m = 4 ∨ m = 5 ∨ m = 6 ∨ m = 7 ∨ m = 8 ∨
          m = 9 ∨ m = 10 ∨ m = 11 ∨ m = 12) as H by lia;
  repeat (destruct H as [->|H]); [..|subst m].

Lemma days_before_month_succ y m :
  1 ≤ m ≤ 11 → days_before_month y (m + 1) = days_before_month y m + days_in_month y m.
Proof.
  intros Hm. unfold days_before_month, days_in_month.
  month_cases m; simpl; try lia; destruct (is_leap y); simpl; lia.
Qed.

Lemma days_before_month_mono y m m' :
  1 ≤ m → m ≤ m' → m' ≤ 12 → days_before_month y m ≤ days_before_month y m'.
Proof.
  intros H1 Hle H12. unfold days_before_month.
  month_cases m; month_cases m'; try lia; simpl; destruct (is_leap y); simpl; lia.
Qed.

Lemma days_in_year y m d :
  1 ≤ m ≤ 12 → 1 ≤ d ≤ days_in_month y m →
  1 ≤ days_before_month y m + d ≤ 365 + (if is_leap y then 1 else 0).
Proof.
  intros Hm. unfold days_before_month, days_in_month.
  month_cases m; simpl; destruct (is_leap y); simpl; lia.
Qed.

Lemma toordinal_lt a b :
  valid_datetime a → valid_datetime b →
  year a < year b ∨ (year a = year b ∧
    (month a < month b ∨ (month a = month b ∧ day a < day b))) →
  toordinal a < toordinal b.
Proof.
  intros (Hya & Hma & Hda & _) (Hyb & Hmb & Hdb & _) Hlt. unfold toordinal.
  destruct Hlt as [Hy|[Hy [Hm|[Hm Hd]]]].
  - pose proof (days_in_year _ _ _ Hma Hda) as Ha.
    pose proof (days_in_year _ _ _ Hmb Hdb) as Hb.
    pose proof (days_before_year_succ (year a)) as Hs.
    assert (year a + 1 ≤ year b) as Hy' by lia.
    apply days_before_year_mono in Hy'. lia.
  - rewrite <- Hy in *.
    assert (1 ≤ month a ≤ 11) as Hm11 by lia.
    pose proof (days_before_month_succ (year a) _ Hm11) as Hs.
    assert (month a + 1 ≤ month b) as Hm' by lia.
    apply (days_before_month_mono (year a)) in Hm'; lia.
  - rewrite <- Hy, <- Hm in *. lia.
Qed.

Lemma minutes_of_lt a b :
  valid_datetime a → valid_datetime b → dt_lt a b → minutes_of a < minutes_of b.
Proof.
  intros Ha Hb Hlt. unfold minutes_of.
  destruct Ha as (Hya & Hma & Hda & Hha & Hmia) eqn:Ea.
  destruct Hb as (Hyb & Hmb & Hdb & Hhb & Hmib) eqn:Eb.
  assert (valid_datetime a) as Ha' by done.
  assert (valid_datetime b) as Hb' by done.
  clear Ea Eb.
  assert (toordinal a < toordinal b ∨
          (toordinal a = toordinal b ∧
           (hour a < hour b ∨ (hour a = hour b ∧ minute a < minute b)))) as [H|H].
  { unfold dt_lt in Hlt.
    destruct Hlt as [Hy|[Hy [Hm|[Hm [Hd|[Hd Hrest]]]]]].
    - left. apply toordinal_lt; auto.
    - left. apply toordinal_lt; auto.
    - left. apply toordinal_lt; auto.
    - right. split; [|done]. unfold toordinal. by rewrite Hy, Hm, Hd. }
  - lia.
  - lia.
Qed.

(** On valid keys, "not later" in the field order is "not later" in time. *)
Lemma dt_ltb_minutes a b :
  valid_datetime a → valid_datetime b →
  dt_ltb b a = false ↔ minutes_of a ≤ minutes_of b.
Proof.
  intros Ha Hb. split.
  - intros Hba. destruct (dt_ltb a b) eqn:Hab.
    + apply dt_ltb_spec in Hab. pose proof (minutes_of_lt a b Ha Hb Hab). lia.
    + by rewrite (dt_ltb_antisym a b Hab Hba).
  - intros Hle. destruct (dt_ltb b a) eqn:Hba; [|done].
    apply dt_ltb_spec in Hba. pose proof (minutes_of_lt b a Hb Ha Hba). lia.
Qed.

Lemma valid_combine_dt d t :
  valid_date d → valid_time t → valid_datetime (combine_dt d t).
Proof. intros (Hy & Hm & Hd) (Hh & Hmi). unfold valid_datetime. simpl. lia. Qed.

(** ** [sort_events] *)

Section SortEventsProofs.
Variable strptime : string → result datetime.

Local Abbreviation key := (event_key strptime).
Local Abbreviation ev_coherent := (@coherent event datetime key).
Local Abbreviation ev_pair_le := (@pair_le event datetime dt_ltb).

Lemma coherent_StronglySorted (qs : list (datetime * event)) :
  Forall ev_coherent qs → StronglySorted ev_pair_le qs →
  StronglySorted (key_le strptime) (map snd qs).
Proof.
  intros Hco Hss. induction Hss as [|q qs Hss IH Hq]; simpl; [constructor|].
  apply Forall_cons in Hco as [Hq_co Hco].
  constructor; [by apply IH|].
  apply Forall_fmap, Forall_forall. intros r Hr. simpl.
  exists (fst q), (fst r). repeat split.
  - exact Hq_co.
  - rewrite Forall_forall in Hco. by apply Hco.
  - rewrite Forall_forall in Hq. by apply Hq.
Qed.

Lemma coherent_filter k (qs : list (datetime * event)) :
  Forall ev_coherent qs →
  filter (has_key strptime k) (map snd qs)
  = map snd (filter (λ q : datetime * event, fst q = k) qs).
Proof.
  induction 1 as [|q qs Hq _ IH]; simpl; [done|].
  rewrite !filter_cons, IH. unfold coherent in Hq.
  destruct (decide (has_key strptime k (snd q))) as [Hk|Hk],
           (decide (fst q = k)) as [Heq|Hne]; try done.
  - unfold has_key in Hk. rewrite Hq in Hk. by injection Hk.
  - exfalso. apply Hk. unfold has_key. by rewrite Hq, Heq.
Qed.

Lemma sort_events_parsed l :
  Forall (λ e, ∃ k, key e = Returned k) l →
  ∃ ys, sort_events strptime l = Returned ys ∧ ys ≡ₚ l ∧
        StronglySorted (key_le strptime) ys ∧
        ∀ k, filter (has_key strptime k) ys = filter (has_key strptime k) l.
Proof.
  intros Hall. destruct (decorate_total key l Hall) as [ps Hdec].
  exists (map snd (sort_pairs dt_ltb ps)).
  split; [by apply sorted_Returned|].
  destruct (decorate_Returned key l ps Hdec) as [Hmap Hco].
  assert (Forall ev_coherent (sort_pairs dt_ltb ps)) as Hco'
    by by apply sort_pairs_coherent.
  split; [|split].
  - rewrite <- Hmap. apply fmap_Permutation, sort_pairs_perm.
  - apply coherent_StronglySorted; [done|].
    apply sort_pairs_StronglySorted; [apply dt_ltb_asym|apply dt_ltb_connex].
  - intros k. rewrite <- Hmap. rewrite !coherent_filter by done.
    f_equal. apply sort_pairs_filter, dt_ltb_irrefl.
Qed.

Lemma sort_events_unparsed l :
  Exists (λ e, ∃ err, key e = Raised err) l →
  ∃ err, sort_events strptime l = Raised err.
Proof.
  intros Hex. destruct (decorate_raises key l Hex) as [err Herr].
  exists err. unfold sort_events, sorted. by rewrite Herr.
Qed.

Lemma sort_events_idempotent l ys :
  sort_events strptime l = Returned ys → sort_events strptime ys = Returned ys.
Proof. apply sorted_idempotent, dt_ltb_asym. Qed.

Lemma key_le_pair_le (qs : list (datetime * event)) :
  Forall ev_coherent qs → StronglySorted (key_le strptime) (map snd qs) →
  StronglySorted ev_pair_le qs.
Proof.
  induction 1 as [|q qs Hq Hco IH]; simpl; intros Hss; [constructor|].
  apply StronglySorted_inv in Hss as [Hss Hhd].
  constructor; [by apply IH|].
  rewrite Forall_fmap in Hhd. rewrite Forall_forall in *. intros r Hr.
  destruct (Hhd r Hr) as (ka & kb & Hka & Hkb & Hle).
  unfold has_key, coherent, pair_le in *. simpl in *.
  rewrite Hq in Hka. rewrite (Hco r Hr) in Hkb.
  injection Hka as <-. by injection Hkb as <-.
Qed.

(** Whatever stable sort [sorted] is inside, the list it returns is this one:
    a rearrangement of the input that is sorted by key and keeps the events of
    each key in their order is the list [sort_events] returns. *)
Lemma sort_events_unique l zs :
  Forall (λ e, ∃ k, key e = Returned k) l →
  zs ≡ₚ l →
  StronglySorted (key_le strptime) zs →
  (∀ k, filter (has_key strptime k) zs = filter (has_key strptime k) l) →
  sort_events strptime l = Returned zs.
Proof.
  intros Hall Hperm Hss Hfil.
  destruct (decorate_total key l Hall) as [ps Hps].
  assert (Forall (λ e, ∃ k, key e = Returned k) zs) as Hall' by by rewrite Hperm.
  destruct (decorate_total key zs Hall') as [qs Hqs].
  destruct (decorate_Returned key l ps Hps) as [Hmap Hco].
  destruct (decorate_Returned key zs qs Hqs) as [Hmap' Hco'].
  unfold sort_events. rewrite (sorted_Returned _ _ _ _ Hps). f_equal.
  rewrite <- Hmap'. f_equal. symmetry.
  apply sort_pairs_unique;
    [apply dt_ltb_irrefl|apply dt_ltb_asym|apply dt_ltb_connex|apply dt_ltb_antisym| |].
  - apply key_le_pair_le; [done|by rewrite Hmap'].
  - intros k. apply (coherent_inj key).
    + by apply Forall_filter_keep.
    + by apply Forall_filter_keep.
    + rewrite <- !coherent_filter by done. by rewrite Hmap, Hmap'.
Qed.

Hypothesis parser_reads_back : reads_back strptime.

Lemma well_formed_key e :
  well_formed e → ∃ k, key e = Returned k.
Proof.
  intros (d & t & Hd & Ht & Hdate & Htime). exists (combine_dt d t).
  unfold event_key. rewrite Hdate, Htime. by apply parser_reads_back.
Qed.

Lemma well_formed_keys l :
  Forall well_formed l → Forall (λ e, ∃ k, key e = Returned k) l.
Proof. intros H. eapply Forall_impl; [exact H|]. apply well_formed_key. Qed.
Lemma well_formed_valid_key e k :
  well_formed e → key e = Returned k → valid_datetime k.
Proof.
  intros (d & t & Hd & Ht & Hdate & Htime). unfold event_key.
  rewrite Hdate, Htime, (parser_reads_back d t Hd Ht). intros [= <-].
  by apply valid_combine_dt.
Qed.

Lemma key_le_chrono_le a b :
  well_formed a → well_formed b → key_le strptime a b → chrono_le strptime a b.
Proof.
  intros Ha Hb (ka & kb & Hka & Hkb & Hle). exists ka, kb. repeat split; try done.
  apply dt_ltb_minutes; [by apply (well_formed_valid_key a)|
                         by apply (well_formed_valid_key b)|done].
Qed.

Lemma StronglySorted_chrono l :
  Forall well_formed l → StronglySorted (key_le strptime) l →
  StronglySorted (chrono_le strptime) l.
Proof.
  intros Hwf Hss. induction Hss as [|x l Hss IH Hx]; [constructor|].
  apply Forall_cons in Hwf as [Hwx Hwl]. constructor; [by apply IH|].
  rewrite Forall_forall in *. intros y Hy.
  apply key_le_chrono_le; auto.
Qed.

(** The key that the code computes for an event in the forms of section 6 is
    the instant that its date and time fields denote, and no other. *)
Lemma at_instant_has_key k e : at_instant k e → has_key strptime k e.
Proof.
  intros (Hd & Ht & Hdate & Htime). unfold has_key, event_key.
  rewrite Hdate, Htime, (parser_reads_back _ _ Hd Ht). by destruct k.
Qed.

Lemma well_formed_at_instant e k :
  well_formed e → has_key strptime k e → at_instant k e.
Proof.
  intros (d & t & Hd & Ht & Hdate & Htime). unfold has_key, event_key.
  rewrite Hdate, Htime, (parser_reads_back d t Hd Ht). intros [= <-].
  destruct d as [y m dd], t as [h mi]. unfold at_instant, date_of, time_of. simpl.
  by rewrite Hdate, Htime.
Qed.

Lemma filter_at_instant k l :
  Forall well_formed l →
  filter (at_instant k) l = filter (has_key strptime k) l.
Proof.
  induction 1 as [|e l He _ IH]; [done|]. rewrite !filter_cons, IH.
  destruct (decide (at_instant k e)) as [Hk|Hk],
           (decide (has_key strptime k e)) as [Hk'|Hk']; try done.
  - exfalso. by apply Hk', at_instant_has_key.
  - exfalso. by apply Hk, well_formed_at_instant.
Qed.

Lemma key_le_not_later a b :
  well_formed a → well_formed b → key_le strptime a b → not_later a b.
Proof.
  intros Ha Hb (ka & kb & Hka & Hkb & Hle). exists ka, kb.
  split; [by apply well_formed_at_instant|].
  split; [by apply well_formed_at_instant|].
  split; [|by apply dt_ltb_false].
  apply dt_ltb_minutes; [by apply (well_formed_valid_key a)|
                         by apply (well_formed_valid_key b)|done].
Qed.

Lemma StronglySorted_not_later l :
  Forall well_formed l → StronglySorted (key_le strptime) l →
  StronglySorted not_later l.
Proof.
  intros Hwf Hss. induction Hss as [|x l Hss IH Hx]; [constructor|].
  apply Forall_cons in Hwf as [Hwx Hwl]. constructor; [by apply IH|].
  rewrite Forall_forall in *. intros y Hy.
  apply key_le_not_later; auto.
Qed.
End SortEventsProofs.

(** ** The parser reads the forms of section 6 *)

Lemma append_assoc (a b c : string) : (a +:+ b) +:+ c = a +:+ (b +:+ c).
Proof. induction a as [|x a IH]; [done|]. by rewrite !append_String, IH. Qed.

Lemma append_empty_r (a : string) : a +:+ "" = a.
Proof. induction a as [|x a IH]; [done|]. by rewrite append_String, IH. Qed.

Lemma digit_val_digit k : 0 ≤ k ≤ 9 → digit_val (digit k) = Some k.
Proof.
  intros Hk.
  assert (k = 0 ∨ k = 1 ∨ k = 2 ∨ k = 3 ∨ k = 4 ∨ k = 5 ∨ k = 6 ∨ k = 7 ∨ k = 8 ∨ k = 9)
    as Hcases by lia.
  repeat (destruct Hcases as [->|Hcases]; [reflexivity|]). by subst.
Qed.

Lemma take_digits_zpad2 n (rest : string) :
  0 ≤ n ≤ 99 → take_digits 2 0 (zpad2 n +:+ rest) = Some (n, rest).
Proof.
  intros Hn. unfold zpad2. rewrite !append_String, append_empty. cbn [take_digits].
  rewrite digit_val_digit by (Z.div_mod_to_equations; lia).
  rewrite digit_val_digit by (Z.div_mod_to_equations; lia).
  do 2 f_equal. Z.div_mod_to_equations. lia.
Qed.

Lemma take_digits_zpad4 n (rest : string) :
  0 ≤ n ≤ 9999 → take_digits 4 0 (zpad4 n +:+ rest) = Some (n, rest).
Proof.
  intros Hn. unfold zpad4, zpad2. rewrite !append_String, append_empty.
  cbn [take_digits].
  rewrite digit_val_digit by (Z.div_mod_to_equations; lia).
  rewrite digit_val_digit by (Z.div_mod_to_equations; lia).
  rewrite digit_val_digit by (Z.div_mod_to_equations; lia).
  rewrite digit_val_digit by (Z.div_mod_to_equations; lia).
  do 2 f_equal. Z.div_mod_to_equations. lia.
Qed.

Lemma expect_String c (rest : string) : expect c (String c rest) = Some rest.
Proof. simpl. by rewrite Ascii.eqb_refl. Qed.

Lemma days_in_month_bounds y m : 28 ≤ days_in_month y m ≤ 31.
Proof.
  unfold days_in_month.
  destruct (m =? 2); [destruct (is_leap y); lia|].
  destruct ((m =? 4) || (m =? 6) || (m =? 9) || (m =? 11)); lia.
Qed.

Lemma parse_fields_iso d t :
  valid_date d → valid_time t →
  parse_fields (iso_date d +:+ " " +:+ strftime_time t) = Some (combine_dt d t).
Proof.
  intros (Hy & Hm & Hd) (Hh & Hmi).
  pose proof (days_in_month_bounds (d_year d) (d_month d)) as Hdim.
  unfold iso_date, strftime_time.
  rewrite !append_assoc, <- (append_empty_r (zpad2 (t_minute t))).
  unfold parse_fields.
  rewrite take_digits_zpad4 by lia. cbn [mbind option_bind].
  rewrite append_String, append_empty, expect_String. cbn [mbind option_bind].
  rewrite take_digits_zpad2 by lia. cbn [mbind option_bind].
  rewrite append_String, append_empty, expect_String. cbn [mbind option_bind].
  rewrite take_digits_zpad2 by lia. cbn [mbind option_bind].
  rewrite append_String, append_empty, expect_String. cbn [mbind option_bind].
  rewrite take_digits_zpad2 by lia. cbn [mbind option_bind].
  rewrite append_String, append_empty, expect_String. cbn [mbind option_bind].
  rewrite take_digits_zpad2 by lia. cbn [mbind option_bind].
  reflexivity.
Qed.

Lemma in_range_valid d t :
  valid_date d → valid_time t → in_range (combine_dt d t) = true.
Proof.
  intros (Hy & Hm & Hd) (Hh & Hmi). unfold in_range. simpl.
  repeat (apply andb_true_iff; split); apply Z.leb_le; lia.
Qed.

Lemma strptime_reads_back : reads_back strptime.
Proof.
  intros d t Hd Ht. unfold strptime.
  by rewrite parse_fields_iso, in_range_valid.
Qed.

(** ** [sort_events] against the specification *)

Lemma well_formed_A : well_formed event_A.
Proof.
  exists (Date 2024 5 1), (Time 9 0).
  split; [unfold valid_date; decide_goal|].
  split; [unfold valid_time; decide_goal|]. by split.
Qed.

Lemma well_formed_B : well_formed event_B.
Proof.
  exists (Date 2024 4 20), (Time 14 0).
  split; [unfold valid_date; decide_goal|].
  split; [unfold valid_time; decide_goal|]. by split.
Qed.

Lemma well_formed_A2 : well_formed event_A2.
Proof.
  exists (Date 2024 5 1), (Time 9 0).
  split; [unfold valid_date; decide_goal|].
  split; [unfold valid_time; decide_goal|]. by split.
Qed.

Example scenario_sort_tie :
  sort_events strptime [event_A; event_B; event_A2] = Returned [event_B; event_A; event_A2] ∧
  sort_events strptime [event_A2; event_B; event_A] = Returned [event_B; event_A2; event_A].
Proof. split; reflexivity. Qed.

(** C5.  On events whose date field is the form YYYY-MM-DD of a calendar
    date and whose time field the form HH:MM of a time of day, [sort_events]
    returns a permutation of its input in which no event comes before an
    event of an earlier date and time: the instants that the date and time
    fields denote never decrease along the list, on the time line and in the
    order of (date, time).  The events whose fields denote one and the same
    instant keep the order they had in the input.  If [datetime.strptime]
    raises on the text made of the date and the time of some event, the sort
    raises ([ValueError], the specification's [MalformedDateError]).
    [strptime] stands for [datetime.strptime] with the format of line 60. *)
Theorem sort_events_spec (strptime : string → result datetime) :
  reads_back strptime →
  ∀ l : list event,
    (Forall well_formed l →
       ∃ ys, sort_events strptime l = Returned ys ∧ ys ≡ₚ l ∧
             StronglySorted not_later ys ∧
             ∀ k, filter (at_instant k) ys = filter (at_instant k) l) ∧
    (Exists (λ e, ∃ err, strptime (date (ev_fields e) +:+ " " +:+ time (ev_fields e))
                         = Raised err) l →
       ∃ err, sort_events strptime l = Raised err).
Proof.
  intros Hrb l. split.
  - intros Hwf.
    destruct (sort_events_parsed strptime l (well_formed_keys strptime Hrb l Hwf))
      as (ys & Hys & Hperm & Hsorted & Hstable).
    assert (Forall well_formed ys) as Hwf' by by rewrite Hperm.
    exists ys. split; [done|]. split; [done|]. split.
    + by apply (StronglySorted_not_later strptime).
    + intros k. by rewrite !(filter_at_instant strptime Hrb).
  - apply sort_events_unparsed.
Qed.

Lemma sort_events_spec_witness :
  (∃ ys, sort_events strptime [event_A; event_B; event_A2] = Returned ys ∧
         ys ≡ₚ [event_A; event_B; event_A2] ∧
         StronglySorted not_later ys ∧
         ∀ k, filter (at_instant k) ys = filter (at_instant k) [event_A; event_B; event_A2]) ∧
  (∃ err, sort_events strptime [event_A; event_bad] = Raised err).
Proof.
  split.
  - apply (sort_events_spec strptime strptime_reads_back [event_A; event_B; event_A2]).
    repeat constructor; [apply well_formed_A|apply well_formed_B|apply well_formed_A2].
  - apply (sort_events_spec strptime strptime_reads_back [event_A; event_bad]).
    apply Exists_cons_tl, Exists_cons_hd. by eexists.
Defined.

(** C9.  On events whose date and time fields are in the forms of section 6,
    sorting the sorted list returns it unchanged, and the sort is stable for
    ties on (date, time): the events whose date and time fields denote one
    and the same instant come out in the order in which they went in. *)
Theorem sort_events_idempotent_stable (strptime : string → result datetime) :
  reads_back strptime →
  ∀ l : list event,
    Forall well_formed l →
    ∃ ys, sort_events strptime l = Returned ys ∧
          sort_events strptime ys = Returned ys ∧
          ∀ k, filter (at_instant k) ys = filter (at_instant k) l.
Proof.
  intros Hrb l Hwf.
  destruct (sort_events_parsed strptime l (well_formed_keys strptime Hrb l Hwf))
    as (ys & Hys & Hperm & _ & Hstable).
  assert (Forall well_formed ys) as Hwf' by by rewrite Hperm.
  exists ys. split; [done|]. split.
  - by apply (sort_events_idempotent strptime l).
  - intros k. by rewrite !(filter_at_instant strptime Hrb).
Qed.

Lemma sort_events_idempotent_stable_witness :
  (∃ ys, sort_events strptime [event_A; event_B; event_A2] = Returned ys ∧
         sort_events strptime ys = Returned ys ∧
         ∀ k, filter (at_instant k) ys
              = filter (at_instant k) [event_A; event_B; event_A2]) ∧
  (∃ ys, sort_events strptime [event_A2; event_B; event_A] = Returned ys ∧
         sort_events strptime ys = Returned ys ∧
         ∀ k, filter (at_instant k) ys
              = filter (at_instant k) [event_A2; event_B; event_A]).
Proof.
  split.
  - apply (sort_events_idempotent_stable strptime strptime_reads_back
             [event_A; event_B; event_A2]).
    repeat constructor; [apply well_formed_A|apply well_formed_B|apply well_formed_A2].
  - apply (sort_events_idempotent_stable strptime strptime_reads_back
             [event_A2; event_B; event_A]).
    repeat constructor; [apply well_formed_A2|apply well_formed_B|apply well_formed_A].
Defined.

(** * Further properties of the program *)

(** ** Lookup by id, and how it composes with the store operations *)

Lemma get_event_by_id_run id s :
  get_event_by_id id s =
  (head (filter (λ e, ev_id e = id) (stored s)),
   {| events := Some (stored s); editing_id := editing_id s;
      current_tab := current_tab s; shown := shown s |}).
Proof. destruct s as [[l|] i t sh]; reflexivity. Qed.

Lemma get_event_by_id_eval id s :
  eval (get_event_by_id id) s = head (filter (λ e, ev_id e = id) (stored s)).
Proof. unfold eval. by rewrite get_event_by_id_run. Qed.

Lemma filter_id_none id (l : list event) :
  id ∉ ids l → filter (λ e, ev_id e = id) l = [].
Proof.
  unfold ids. induction l as [|e l IH]; simpl; [done|].
  rewrite not_elem_of_cons. intros [Hne Hid].
  rewrite filter_cons_False by congruence. by apply IH.
Qed.

Lemma filter_id_first id (l1 l2 : list event) e :
  ev_id e = id → id ∉ ids l1 →
  head (filter (λ e, ev_id e = id) (l1 ++ e :: l2)) = Some e.
Proof.
  intros He Hl1. by rewrite filter_app, filter_id_none, filter_cons_True.
Qed.

Lemma filter_id_lookup id (l : list event) (n : nat) e :
  l !! n = Some e → ev_id e = id → id ∉ ids (take n l) →
  head (filter (λ e, ev_id e = id) l) = Some e.
Proof.
  intros Hn He Hpre. rewrite <- (take_drop_middle _ _ _ Hn).
  by apply filter_id_first.
Qed.

Lemma first_split id (l : list event) :
  id ∈ ids l →
  ∃ l1 e l2, l = l1 ++ e :: l2 ∧ ev_id e = id ∧ (id ∉ ids l1) ∧ length l1 = Z.to_nat (index_of id l).
Proof.
  intros Hid. destruct (index_of_present id l Hid) as (n & e & Hidx & Hn & He & Hpre).
  exists (take n l), e, (drop (S n) l). repeat split; try done.
  - by rewrite take_drop_middle.
  - rewrite Hidx, Nat2Z.id, length_take. apply lookup_lt_Some in Hn. lia.
Qed.

Lemma filter_other_id id id' (l : list event) :
  id' ≠ id →
  filter (λ e, ev_id e = id') (filter (λ e, ev_id e ≠ id) l) = filter (λ e, ev_id e = id') l.
Proof.
  intros Hne. induction l as [|e l IH]; [done|].
  destruct (decide (ev_id e = id)) as [He|He].
  - rewrite (filter_cons_False (λ e, ev_id e ≠ id)) by (intros H; by apply H).
    rewrite (filter_cons_False (λ e, ev_id e = id')) by congruence. done.
  - rewrite (filter_cons_True (λ e, ev_id e ≠ id)) by done.
    rewrite !(filter_cons (λ e, ev_id e = id')), IH. done.
Qed.

(** X1.  [get_event_by_id] returns the first stored event that has the id,
    and [None] exactly when no stored event has it; the list of events is
    left as it is. *)
Theorem get_event_by_id_first id s :
  match eval (get_event_by_id id) s with
  | Some e => ∃ n : nat, stored s !! n = Some e ∧ ev_id e = id ∧
                         (id ∉ ids (take n (stored s)))
  | None => id ∉ ids (stored s)
  end ∧
  stored (exec (get_event_by_id id) s) = stored s ∧
  editing_id (exec (get_event_by_id id) s) = editing_id s.
Proof.
  split; [|unfold exec; by rewrite get_event_by_id_run].
  rewrite get_event_by_id_eval.
  destruct (decide (id ∈ ids (stored s))) as [Hid|Hid].
  - destruct (index_of_present id _ Hid) as (n & e & _ & Hn & He & Hpre).
    rewrite (filter_id_lookup id _ n e Hn He Hpre). by exists n.
  - by rewrite filter_id_none.
Qed.

(** X2.  A creation under a clock value that is not yet an id can be read
    back: looking the clock value up returns the new event, and the lookup of
    every other id returns what it returned before. *)
Theorem create_then_get now d s :
  editing_id s = None → now ∉ ids (stored s) →
  let s' := exec (add_event now d) s in
  eval (get_event_by_id now) s' = Some (Event now d) ∧
  ∀ id, id ≠ now → eval (get_event_by_id id) s' = eval (get_event_by_id id) s.
Proof.
  intros Hed Hnow s'. subst s'. rewrite !get_event_by_id_eval, add_event_stored.
  rewrite add_event_result_create by done. split.
  - by apply filter_id_first.
  - intros id Hne. rewrite !get_event_by_id_eval, add_event_stored.
    rewrite add_event_result_create, filter_app by done.
    rewrite (filter_cons_False _ (Event now d)) by (simpl; congruence).
    by rewrite filter_nil, app_nil_r.
Qed.

Lemma create_then_get_witness :
  eval (get_event_by_id 9) (exec (add_event 9 sample_data) viewing_AB)
  = Some (Event 9 sample_data).
Proof.
  apply (create_then_get 9 sample_data viewing_AB).
  - reflexivity.
  - decide_goal.
Defined.

(** X3.  An update under an id of the store can be read back: looking the id
    up returns the supplied data under that id, and the lookup of every other
    id returns what it returned before. *)
Theorem update_then_get now d s id :
  editing_id s = Some id → id ∈ ids (stored s) →
  let s' := exec (add_event now d) s in
  eval (get_event_by_id id) s' = Some (Event id d) ∧
  ∀ id', id' ≠ id → eval (get_event_by_id id') s' = eval (get_event_by_id id') s.
Proof.
  intros Hed Hid s'. subst s'.
  destruct (first_split id _ Hid) as (l1 & e & l2 & Hl & He & Hl1 & Hlen).
  destruct (index_of_present id _ Hid) as (n & e' & Hidx & _).
  assert (add_event_result now d s = l1 ++ Event id d :: l2) as Hres.
  { unfold add_event_result. rewrite Hed.
    destruct (decide (index_of id (stored s) ≠ -1)) as [_|Hn]; [|lia].
    rewrite <- Hlen, Hl. by rewrite insert_app_r_alt, Nat.sub_diag by lia. }
  split.
  - rewrite get_event_by_id_eval, add_event_stored, Hres.
    by apply filter_id_first.
  - intros id' Hne. rewrite !get_event_by_id_eval, add_event_stored, Hres, Hl.
    rewrite !filter_app.
    rewrite (filter_cons_False _ (Event id d)) by (simpl; congruence).
    rewrite (filter_cons_False _ e) by congruence. done.
Qed.

Lemma update_then_get_witness :
  eval (get_event_by_id 2) (exec (add_event 9 sample_data) editing_B)
  = Some (Event 2 sample_data).
Proof.
  apply (update_then_get 9 sample_data editing_B 2).
  - reflexivity.
  - decide_goal.
Defined.

(** X4.  After [delete_event] the id is not found any more, and the lookup
    of every other id returns what it returned before. *)
Theorem delete_then_get id s :
  let s' := exec (delete_event id) s in
  eval (get_event_by_id id) s' = None ∧
  ∀ id', id' ≠ id → eval (get_event_by_id id') s' = eval (get_event_by_id id') s.
Proof.
  intros s'. subst s'. rewrite get_event_by_id_eval, delete_event_stored. split.
  - rewrite filter_id_none; [done|].
    unfold ids. intros (e & He & Hin)%list_elem_of_fmap.
    apply list_elem_of_filter in Hin as [Hne _]. by apply Hne.
  - intros id' Hne. rewrite !get_event_by_id_eval, delete_event_stored.
    by rewrite filter_other_id.
Qed.

(** X5.  Deleting twice is deleting once, and deletions can be done in
    either order: the events left are the same. *)
Theorem delete_event_idempotent_commutes a b s :
  stored (exec (delete_event a) (exec (delete_event a) s))
  = stored (exec (delete_event a) s) ∧
  stored (exec (delete_event b) (exec (delete_event a) s))
  = stored (exec (delete_event a) (exec (delete_event b) s)).
Proof.
  rewrite !delete_event_stored, !list_filter_filter. split.
  - apply list_filter_iff. tauto.
  - apply list_filter_iff. tauto.
Qed.

(** ** Ids and clocks, from any store *)

(** X6.  From any store, a sequence of operations leaves the ids unique when
    the ids of the store and the clock values of the creations are, taken
    together, without repetition. *)
Theorem ids_unique_for_fresh_clocks os s :
  NoDup (ids (stored s) ++ create_clocks os) →
  NoDup (ids (stored (exec (run_ops os) s))).
Proof. intros Hnd. eapply sublist_NoDup; [exact Hnd|apply run_ops_ids]. Qed.

Lemma ids_unique_for_fresh_clocks_witness :
  NoDup (ids (stored (exec (run_ops [Create 5 form_A; Delete 1; Create 6 form_B])
                           viewing_AB))).
Proof.
  apply (ids_unique_for_fresh_clocks [Create 5 form_A; Delete 1; Create 6 form_B] viewing_AB).
  decide_goal.
Defined.

(** ** The filter as a selection *)

Lemma selects_filter {A} (P : A → Prop) `{∀ x, Decision (P x)} (l : list A) :
  selects P l (filter P l).
Proof.
  induction l as [|x l IH]; [constructor|].
  rewrite filter_cons. destruct (decide (P x)); by constructor.
Qed.

(** The loop of lines 127-138 is the filter by the two tests. *)
Lemma filtered_events_filter lower all q cf :
  filtered_events lower all q cf
  = filter (λ e, matches_search lower q e && matches_category cf e = true) all.
Proof.
  apply (selects_unique (λ e, matches_search lower q e && matches_category cf e = true) all).
  - destruct (append_loop_selects
                (λ e, matches_search lower q e && matches_category cf e) all [])
      as (l' & Hl' & Hsel).
    simpl in Hl'. destruct all; [constructor|]. unfold filtered_events. by rewrite Hl'.
  - apply selects_filter.
Qed.

(** X7.  With an empty search box and the category box on "All Categories"
    the filter keeps every event, in the order of the store. *)
Theorem filter_shows_all (lower : string → string) all :
  lower "" = "" → filtered_events lower all "" "All Categories" = all.
Proof.
  intros H0. rewrite filtered_events_filter.
  induction all as [|e all IH]; [done|].
  rewrite filter_cons_True, IH; [done|].
  unfold matches_search, matches_category. by rewrite H0, str_in_empty_l.
Qed.

Lemma filter_shows_all_witness :
  filtered_events ascii_lower [event_A; event_B] "" "All Categories" = [event_A; event_B].
Proof. apply (filter_shows_all ascii_lower). reflexivity. Defined.

(** X8.  Whatever the boxes hold, the filter returns a sublist of the store:
    it adds no event, repeats none and changes no order; so it returns no
    more events than the store has. *)
Theorem filter_sublist (lower : string → string) all q cf :
  sublist (filtered_events lower all q cf) all ∧
  (length (filtered_events lower all q cf) ≤ length all)%nat.
Proof.
  rewrite filtered_events_filter. split; [apply sublist_filter|apply length_filter].
Qed.

(** X9.  Filters compose: filtering what a filter returned by the same boxes
    changes nothing, two filters can be applied in either order, and
    filtering by the search box and then by the category box is filtering by
    both at once. *)
Theorem filter_compose (lower : string → string) all q cf q' cf' :
  lower "" = "" →
  filtered_events lower (filtered_events lower all q cf) q cf
  = filtered_events lower all q cf ∧
  filtered_events lower (filtered_events lower all q cf) q' cf'
  = filtered_events lower (filtered_events lower all q' cf') q cf ∧
  filtered_events lower (filtered_events lower all q "All Categories") "" cf
  = filtered_events lower all q cf.
Proof.
  intros H0. rewrite !filtered_events_filter, !list_filter_filter.
  assert (∀ e, matches_search lower "" e = true) as Hq.
  { intros e. unfold matches_search. by rewrite H0, str_in_empty_l. }
  assert (∀ e, matches_category "All Categories" e = true) as Hc by done.
  repeat split; apply list_filter_iff; intros e.
  - tauto.
  - tauto.
  - rewrite !andb_true_iff, Hq, Hc. tauto.
Qed.

Lemma filter_compose_witness :
  filtered_events ascii_lower
    (filtered_events ascii_lower [event_A; event_B] "o" "All Categories") "" "Workshop"
  = filtered_events ascii_lower [event_A; event_B] "o" "Workshop".
Proof.
  apply (filter_compose ascii_lower [event_A; event_B] "o" "Workshop" "" "All Categories").
  reflexivity.
Defined.

(** ** What the form writes, the sort can read *)

(** From the year 1000 on, [strftime('%Y-%m-%d')] writes the form
    YYYY-MM-DD. *)
Lemma year_text_four_digit y : 1000 ≤ y → year_text y = zpad4 y.
Proof.
  intros Hy. unfold year_text.
  destruct (Z.ltb_spec y 10); [lia|]. destruct (Z.ltb_spec y 100); [lia|].
  destruct (Z.ltb_spec y 1000); [lia|done].
Qed.

Lemma strftime_date_iso d : 1000 ≤ d_year d → strftime_date d = iso_date d.
Proof. intros Hy. unfold strftime_date, iso_date. by rewrite year_text_four_digit. Qed.

Lemma form_written_well_formed e : form_written_four_digit e → well_formed e.
Proof.
  intros (f & (Hd & Ht & _) & Hy & Hf). exists (event_date f), (event_time f).
  rewrite Hf. split; [done|]. split; [done|]. split; [|done].
  simpl. by apply strftime_date_iso.
Qed.

(** Below the year 1000 the form does not write the form YYYY-MM-DD, and
    the parser of line 60 does not read what it writes. *)
Example form_written_year_999 :
  date (form_event_data (FormInput "Old" (Date 999 1 1) (Time 9 0) "" "Other" "")) = "999-01-01" ∧
  sort_events strptime
    [Event 1 (form_event_data (FormInput "Old" (Date 999 1 1) (Time 9 0) "" "Other" ""))]
  = Raised (ValueError "time data does not match format").
Proof. split; reflexivity. Qed.

Lemma add_event_Forall (P : event → Prop) now d s :
  Forall P (stored s) → (∀ id, P (Event id d)) →
  Forall P (stored (exec (add_event now d) s)).
Proof.
  intros Hs Hd. rewrite add_event_stored. unfold add_event_result.
  destruct (editing_id s) as [id|].
  - destruct (decide (index_of id (stored s) ≠ -1)); [|done].
    apply Forall_insert; [done|apply Hd].
  - apply Forall_app. split; [done|]. by repeat constructor.
Qed.

Lemma create_event_tab_Forall (P : event → Prop) now f s :
  (∀ id, P (Event id (form_event_data f))) → Forall P (stored s) →
  Forall P (stored (exec (create_event_tab now f) s)).
Proof.
  intros Hf Hs. unfold create_event_tab.
  destruct (decide (event_title f = "")); [done|].
  by apply add_event_Forall.
Qed.

Lemma create_event_tab_form_written now f s :
  valid_form f → Forall form_written (stored s) →
  Forall form_written (stored (exec (create_event_tab now f) s)).
Proof.
  intros Hf Hs. apply create_event_tab_Forall; [|done]. intros id. by exists f.
Qed.

Lemma create_event_tab_four_digit now f s :
  valid_form f → four_digit_year f → Forall form_written_four_digit (stored s) →
  Forall form_written_four_digit (stored (exec (create_event_tab now f) s)).
Proof.
  intros Hf Hy Hs. apply create_event_tab_Forall; [|done]. intros id. by exists f.
Qed.

Lemma start_edit_event_stored id s : stored (exec (start_edit_event id) s) = stored s.
Proof. reflexivity. Qed.

Lemma run_op_form_written o s :
  valid_op o → Forall form_written_four_digit (stored s) →
  Forall form_written_four_digit (stored (exec (run_op o) s)).
Proof.
  destruct o as [now f|id now f|id]; simpl; intros Hf Hs.
  - destruct Hf. by apply create_event_tab_four_digit.
  - destruct Hf. rewrite exec_bind. by apply create_event_tab_four_digit.
  - rewrite exec_bind. unfold exec at 1. simpl. rewrite delete_event_stored.
    by apply Forall_filter_keep.
Qed.

Lemma run_ops_form_written os s :
  Forall valid_op os → Forall form_written_four_digit (stored s) →
  Forall form_written_four_digit (stored (exec (run_ops os) s)).
Proof.
  intros Hos. revert s. induction Hos as [|o os Ho _ IH]; intros s Hs; [done|].
  simpl run_ops. rewrite exec_bind. apply IH. by apply run_op_form_written.
Qed.

Lemma filtered_events_Forall (P : event → Prop) lower all q cf :
  Forall P all → Forall P (filtered_events lower all q cf).
Proof. rewrite filtered_events_filter. apply Forall_filter_keep. Qed.

Lemma valid_form_A : valid_form form_A.
Proof. unfold valid_form, valid_date, valid_time. decide_goal. Qed.

Lemma valid_form_B : valid_form form_B.
Proof. unfold valid_form, valid_date, valid_time. decide_goal. Qed.

Lemma valid_op_Create_A now : valid_op (Create now form_A).
Proof. split; [exact valid_form_A|]. unfold four_digit_year. simpl. lia. Qed.

Lemma valid_op_Create_B now : valid_op (Create now form_B).
Proof. split; [exact valid_form_B|]. unfold four_digit_year. simpl. lia. Qed.

(** X10.  The dates and times in the store are written by [strftime] from
    what the date and time widgets hold (lines 103-104).  When the dates
    entered are of the year 1000 or later, where ['%Y'] writes four digits,
    then whatever the sequence of operations, every stored event is in the
    forms of section 6 and the sort of line 60 returns, on the whole store
    and on any part the filter keeps: it never raises on what the form has
    written. *)
Theorem sort_returns_on_form_input (strptime : string → result datetime)
    (lower : string → string) os q cf :
  reads_back strptime → Forall valid_op os →
  let all := stored (exec (run_ops os) initial_session) in
  Forall well_formed all ∧
  (∃ ys, sort_events strptime all = Returned ys) ∧
  (∃ ys, sort_events strptime (filtered_events lower all q cf) = Returned ys).
Proof.
  intros Hrb Hos all.
  assert (Forall well_formed all) as Hwf.
  { eapply Forall_impl; [|apply form_written_well_formed].
    apply run_ops_form_written; [done|constructor]. }
  split; [done|]. split.
  - destruct (sort_events_parsed strptime all (well_formed_keys strptime Hrb all Hwf))
      as (ys & Hys & _). by exists ys.
  - assert (Forall well_formed (filtered_events lower all q cf)) as Hwf'
      by by apply filtered_events_Forall.
    destruct (sort_events_parsed strptime _ (well_formed_keys strptime Hrb _ Hwf'))
      as (ys & Hys & _). by exists ys.
Qed.

Lemma sort_returns_on_form_input_witness :
  ∃ ys, sort_events strptime
          (stored (exec (run_ops [Create 1 form_A; Create 2 form_B]) initial_session))
        = Returned ys.
Proof.
  apply (sort_returns_on_form_input strptime ascii_lower
           [Create 1 form_A; Create 2 form_B] "" "All Categories").
  - apply strptime_reads_back.
  - constructor; [apply valid_op_Create_A|].
    constructor; [apply valid_op_Create_B|]. constructor.
Defined.

(** ** When and how the sort fails *)

Lemma decorate_raises_first {A K} (key : A → result K) (l1 l2 : list A) x err :
  Forall (λ x, ∃ k, key x = Returned k) l1 → key x = Raised err →
  decorate key (l1 ++ x :: l2) = Raised err.
Proof.
  induction 1 as [|y l1 [k Hk] _ IH]; intros Hx; simpl.
  - by rewrite Hx.
  - by rewrite Hk, IH.
Qed.

Lemma decorate_Raised_split {A K} (key : A → result K) (l : list A) err :
  decorate key l = Raised err →
  ∃ l1 x l2, l = l1 ++ x :: l2 ∧ Forall (λ x, ∃ k, key x = Returned k) l1 ∧
             key x = Raised err.
Proof.
  induction l as [|y l IH]; simpl; [done|].
  destruct (key y) as [k|e] eqn:Hk.
  - destruct (decorate key l) as [ps|e]; [done|]. intros [= ->].
    destruct (IH eq_refl) as (l1 & x & l2 & -> & Hl1 & Hx).
    exists (y :: l1), x, l2. repeat split; [|done]. constructor; [by exists k|done].
  - intros [= ->]. exists [], y, l. by repeat split.
Qed.

(** X11.  [sort_events] raises exactly when some key cannot be parsed, and
    the exception is the one raised for the first such event of the list:
    the keys are computed in list order and nothing is sorted before all of
    them are there. *)
Theorem sort_events_raises_first (strptime : string → result datetime) l err :
  sort_events strptime l = Raised err ↔
  ∃ l1 e l2, l = l1 ++ e :: l2 ∧
             Forall (λ x, ∃ k, event_key strptime x = Returned k) l1 ∧
             event_key strptime e = Raised err.
Proof.
  unfold sort_events, sorted. split.
  - destruct (decorate (event_key strptime) l) as [ps|e] eqn:Hdec; [done|].
    intros [= ->]. by apply decorate_Raised_split.
  - intros (l1 & e & l2 & -> & Hl1 & He).
    by rewrite (decorate_raises_first _ l1 l2 e err Hl1 He).
Qed.

(** ** Filtering and sorting in either order *)

Lemma filter_comm {A} (P Q : A → Prop) `{∀ x, Decision (P x)} `{∀ x, Decision (Q x)}
    (l : list A) :
  filter P (filter Q l) = filter Q (filter P l).
Proof. rewrite !list_filter_filter. apply list_filter_iff. tauto. Qed.

Lemma StronglySorted_filter {A} (R : A → A → Prop) (P : A → Prop)
    `{∀ x, Decision (P x)} (l : list A) :
  StronglySorted R l → StronglySorted R (filter P l).
Proof.
  induction 1 as [|x l Hl IH Hx]; [constructor|].
  rewrite filter_cons. destruct (decide (P x)); [|done].
  constructor; [done|]. by apply Forall_filter_keep.
Qed.

Lemma sort_events_Returned_keys (strptime : string → result datetime) l ys :
  sort_events strptime l = Returned ys →
  Forall (λ e, ∃ k, event_key strptime e = Returned k) l.
Proof.
  unfold sort_events, sorted.
  destruct (decorate (event_key strptime) l) as [ps|e] eqn:Hdec; [|done].
  intros _. apply decorate_Returned in Hdec as [<- Hco].
  apply Forall_fmap. eapply Forall_impl; [exact Hco|].
  intros [k x] Hk. by exists k.
Qed.

(** X12.  When the sort of the whole store returns, the list the page shows,
    the sorted matches, is the sorted store with the matches kept: filtering
    and sorting can be done in either order. *)
Theorem sort_filter_commute (strptime : string → result datetime)
    (lower : string → string) l q cf ys :
  sort_events strptime l = Returned ys →
  sort_events strptime (filtered_events lower l q cf)
  = Returned (filtered_events lower ys q cf).
Proof.
  intros Hys. pose proof (sort_events_Returned_keys strptime l ys Hys) as Hkeys.
  destruct (sort_events_parsed strptime l Hkeys) as (ys' & Hys' & Hperm & Hss & Hst).
  rewrite Hys in Hys'. injection Hys' as <-.
  rewrite !filtered_events_filter. apply sort_events_unique.
  - by apply Forall_filter_keep.
  - by rewrite Hperm.
  - by apply StronglySorted_filter.
  - intros k. by rewrite !(filter_comm (has_key strptime k)), Hst.
Qed.

Lemma sort_filter_commute_witness :
  sort_events strptime (filtered_events ascii_lower [event_A; event_B] "o" "All Categories")
  = Returned (filtered_events ascii_lower [event_B; event_A] "o" "All Categories").
Proof.
  apply (sort_filter_commute strptime ascii_lower [event_A; event_B]).
  reflexivity.
Defined.

(** ** The form: mode and pre-filled values *)

Lemma editing_event_run s :
  editing_event s =
  (match editing_id s with
   | Some id => if decide (id = 0) then None
                else head (filter (λ e, ev_id e = id) (stored s))
   | None => None
   end,
   match editing_id s with
   | Some id => if decide (id = 0) then s
                else {| events := Some (stored s); editing_id := editing_id s;
                        current_tab := current_tab s; shown := shown s |}
   | None => s
   end).
Proof.
  unfold editing_event, bind, get_session. simpl.
  destruct (editing_id s) as [id|] eqn:Hed; [|done].
  destruct (decide (id = 0)); [done|]. by rewrite get_event_by_id_run, Hed.
Qed.

Lemma editing_event_eval s :
  eval editing_event s =
  match editing_id s with
  | Some id => if decide (id = 0) then None
               else head (filter (λ e, ev_id e = id) (stored s))
  | None => None
  end.
Proof. unfold eval. by rewrite editing_event_run. Qed.

Lemma editing_event_stored s :
  stored (exec editing_event s) = stored s ∧
  editing_id (exec editing_event s) = editing_id s ∧
  current_tab (exec editing_event s) = current_tab s ∧
  shown (exec editing_event s) = shown s.
Proof.
  unfold exec. rewrite editing_event_run.
  destruct (editing_id s) as [id|] eqn:Hed; simpl; [|done].
  by destruct (decide (id = 0)).
Qed.

Lemma create_event_tab_run_view sd st today clock s :
  eval (create_event_tab_run sd st today clock None) s
  = render_form sd st today clock (eval editing_event s).
Proof.
  unfold create_event_tab_run, eval, bind.
  by destruct (render_form sd st today clock (editing_event s).1).
Qed.

Lemma list_index_elem x (l : list string) :
  x ∈ l → ∃ i : nat, list_index x l = Returned i ∧ l !! i = Some x.
Proof.
  induction l as [|y l IH]; [by intros ?%elem_of_nil|].
  intros Hx. simpl. destruct (decide (y = x)) as [->|Hne].
  - by exists 0%nat.
  - apply elem_of_cons in Hx as [->|Hx]; [done|].
    destruct (IH Hx) as (i & -> & Hi). by exists (S i).
Qed.

Lemma render_form_Returned sd st today clock ee v :
  render_form sd st today clock ee = Returned v →
  heading v = (match ee with Some _ => "Edit Event" | None => "Create New Event" end) ∧
  button_label v = (match ee with Some _ => "Update Event" | None => "Create Event" end) ∧
  default_title v = (match ee with Some e => title (ev_fields e) | None => "" end) ∧
  default_location v = (match ee with Some e => location (ev_fields e) | None => "" end) ∧
  default_description v
  = (match ee with Some e => description (ev_fields e) | None => "" end) ∧
  sd (match ee with Some e => date (ev_fields e) | None => strftime_date today end)
  = Returned (default_date v) ∧
  st (match ee with Some e => time (ev_fields e) | None => strftime_time clock end)
  = Returned (default_time v) ∧
  list_index (match ee with Some e => category (ev_fields e) | None => "Meeting" end)
    event_categories = Returned (default_category_index v).
Proof.
  unfold render_form, rbind.
  destruct (sd _) as [d|?]; [|done]. destruct (st _) as [t|?]; [|done].
  destruct (list_index _ _) as [i|?]; [|done].
  intros [= <-]. simpl. by destruct ee.
Qed.

(** X13.  The form is in edit mode, with the heading "Edit Event", the button
    "Update Event" and the title, location and description of the stored
    event in its fields, exactly when the edit id is set, is not 0.0 and is
    the id of a stored event; in every other case it is the blank form
    "Create New Event" with the button "Create Event". *)
Theorem form_mode sd st today clock s v :
  eval (create_event_tab_run sd st today clock None) s = Returned v →
  (heading v = "Edit Event" ∧ button_label v = "Update Event" ∧
   ∃ id e, editing_id s = Some id ∧ id ≠ 0 ∧
           eval (get_event_by_id id) s = Some e ∧
           default_title v = title (ev_fields e) ∧
           default_location v = location (ev_fields e) ∧
           default_description v = description (ev_fields e))
  ∨
  (heading v = "Create New Event" ∧ button_label v = "Create Event" ∧
   default_title v = "" ∧ default_location v = "" ∧ default_description v = "" ∧
   default_category_index v = 0%nat ∧
   (editing_id s = None ∨ editing_id s = Some 0 ∨
    ∃ id, editing_id s = Some id ∧ id ∉ ids (stored s))).
Proof.
  rewrite create_event_tab_run_view. intros Hv.
  apply render_form_Returned in Hv
    as (Hh & Hb & Ht & Hl & Hd & _ & _ & Hi).
  rewrite editing_event_eval in *.
  destruct (editing_id s) as [id|] eqn:Hed.
  - destruct (decide (id = 0)) as [->|Hne].
    + right. injection Hi as <-. repeat split; auto.
    + destruct (head (filter (λ e, ev_id e = id) (stored s))) as [e|] eqn:Hhead.
      * left. repeat split; try done. exists id, e. repeat split; try done.
        by rewrite get_event_by_id_eval.
      * right. injection Hi as <-. repeat split; try done.
        right; right. exists id. split; [done|]. intros Hid.
        destruct (index_of_present id _ Hid) as (n & e & _ & Hn & He & Hpre).
        by rewrite (filter_id_lookup id _ n e Hn He Hpre) in Hhead.
  - right. injection Hi as <-. repeat split; auto.
Qed.

Lemma form_mode_witness :
  ∃ v, eval (create_event_tab_run strptime_ymd strptime_hm (Date 2024 6 1) (Time 8 30) None)
            editing_B = Returned v ∧ heading v = "Edit Event" ∧
       default_title v = "Art Workshop".
Proof.
  eexists. split; [reflexivity|].
  destruct (form_mode strptime_ymd strptime_hm (Date 2024 6 1) (Time 8 30) editing_B _ eq_refl)
    as [(Hh & _ & id & e & _ & _ & _ & _)|(Hh & _)]; [|discriminate Hh].
  split; reflexivity.
Defined.

Lemma strptime_ymd_reads_back : reads_back_date strptime_ymd.
Proof.
  intros d (Hy & Hm & Hd) Hy4.
  pose proof (days_in_month_bounds (d_year d) (d_month d)) as Hdim.
  rewrite strftime_date_iso by done. unfold strptime_ymd, iso_date.
  rewrite <- (append_empty_r (zpad2 (d_day d))).
  rewrite take_digits_zpad4 by lia. cbn [mbind option_bind].
  rewrite append_String, append_empty, expect_String. cbn [mbind option_bind].
  rewrite take_digits_zpad2 by lia. cbn [mbind option_bind].
  rewrite append_String, append_empty, expect_String. cbn [mbind option_bind].
  rewrite take_digits_zpad2 by lia. cbn [mbind option_bind].
  simpl.
  assert ((1 <=? d_year d) && (1 <=? d_month d) && (d_month d <=? 12) &&
          (1 <=? d_day d) && (d_day d <=? days_in_month (d_year d) (d_month d)) = true)
    as ->; [|by destruct d].
  repeat (apply andb_true_iff; split); apply Z.leb_le; lia.
Qed.

Lemma strptime_hm_reads_back : reads_back_time strptime_hm.
Proof.
  intros t (Hh & Hmi). unfold strptime_hm, strftime_time.
  rewrite <- (append_empty_r (zpad2 (t_minute t))).
  rewrite take_digits_zpad2 by lia. cbn [mbind option_bind].
  rewrite append_String, append_empty, expect_String. cbn [mbind option_bind].
  rewrite take_digits_zpad2 by lia. cbn [mbind option_bind].
  simpl.
  assert ((t_hour t <=? 23) && (t_minute t <=? 59) = true) as ->; [|by destruct t].
  apply andb_true_iff; split; apply Z.leb_le; lia.
Qed.

(** Below the year 1000 the parser of line 87 does not read what line 103
    wrote: the edit form of such an event raises. *)
Example prefill_year_999 :
  strptime_ymd (strftime_date (Date 999 1 1))
  = Raised (ValueError "time data does not match format").
Proof. reflexivity. Qed.

(** X14.  The edit form hands back what the form wrote: when the event under
    edit was stored from the inputs [f] of the form, with a date of the year
    1000 or later (where ['%Y'] writes the four digits that it reads), the
    form is rendered with the title, date, time, location, category and
    description of [f] in its widgets. *)
Theorem prefill_reads_back sd st today clock s id f :
  reads_back_date sd → reads_back_time st → valid_form f → four_digit_year f →
  editing_id s = Some id → id ≠ 0 →
  eval (get_event_by_id id) s = Some (Event id (form_event_data f)) →
  ∃ v, eval (create_event_tab_run sd st today clock None) s = Returned v ∧
       heading v = "Edit Event" ∧
       default_title v = event_title f ∧
       default_date v = event_date f ∧
       default_time v = event_time f ∧
       default_location v = event_location f ∧
       event_categories !! default_category_index v = Some (event_category f) ∧
       default_description v = event_description f.
Proof.
  intros Hsd Hst (Hd & Ht & Hc) Hy Hed Hne Hget.
  rewrite create_event_tab_run_view, editing_event_eval, Hed.
  destruct (decide (id = 0)); [done|].
  rewrite get_event_by_id_eval in Hget. rewrite Hget.
  destruct (list_index_elem _ _ Hc) as (i & Hi & Hlook).
  unfold render_form, rbind.
  cbn [ev_fields form_event_data date time category title location description].
  rewrite (Hsd _ Hd Hy), (Hst _ Ht), Hi. eexists. split; [done|]. by simpl.
Qed.

Lemma prefill_reads_back_witness :
  ∃ v, eval (create_event_tab_run strptime_ymd strptime_hm (Date 2024 6 1) (Time 8 30) None)
            editing_form_B = Returned v ∧
       heading v = "Edit Event" ∧
       default_title v = event_title form_B ∧
       default_date v = event_date form_B ∧
       default_time v = event_time form_B ∧
       default_location v = event_location form_B ∧
       event_categories !! default_category_index v = Some (event_category form_B) ∧
       default_description v = event_description form_B.
Proof.
  apply (prefill_reads_back strptime_ymd strptime_hm (Date 2024 6 1) (Time 8 30)
           editing_form_B 2 form_B).
  - apply strptime_ymd_reads_back.
  - apply strptime_hm_reads_back.
  - apply valid_form_B.
  - unfold four_digit_year. simpl. lia.
  - reflexivity.
  - discriminate.
  - reflexivity.
Defined.

(** X15.  With no event under edit the form is blank and proposes the
    present: empty title, location and description, the date of today, the
    time of the clock and the first category, "Meeting".  Today's date is of
    the year 1000 or later, where ['%Y'] of line 76 writes the four digits
    that line 87 reads. *)
Theorem blank_form sd st today clock s :
  reads_back_date sd → reads_back_time st → valid_date today → 1000 ≤ d_year today →
  valid_time clock → editing_id s = None →
  eval (create_event_tab_run sd st today clock None) s =
  Returned {| heading := "Create New Event"; default_title := "";
              default_date := today; default_time := clock;
              default_location := ""; default_category_index := 0;
              default_description := ""; button_label := "Create Event" |} ∧
  event_categories !! 0%nat = Some "Meeting".
Proof.
  intros Hsd Hst Hd Hy Ht Hed. split; [|done].
  rewrite create_event_tab_run_view, editing_event_eval, Hed.
  unfold render_form, rbind. by rewrite (Hsd _ Hd Hy), (Hst _ Ht).
Qed.

Lemma blank_form_witness :
  eval (create_event_tab_run strptime_ymd strptime_hm (Date 2024 6 1) (Time 8 30) None)
       initial_session =
  Returned {| heading := "Create New Event"; default_title := "";
              default_date := Date 2024 6 1; default_time := Time 8 30;
              default_location := ""; default_category_index := 0;
              default_description := ""; button_label := "Create Event" |}.
Proof.
  apply (blank_form strptime_ymd strptime_hm (Date 2024 6 1) (Time 8 30) initial_session).
  - apply strptime_ymd_reads_back.
  - apply strptime_hm_reads_back.
  - unfold valid_date. decide_goal.
  - simpl. lia.
  - unfold valid_time. decide_goal.
  - reflexivity.
Defined.

(** ** The form and its handler agree in edit mode *)

Lemma add_event_core now d s0 s :
  core s0 = core s → core (exec (add_event now d) s0) = core (exec (add_event now d) s).
Proof.
  unfold core, exec. rewrite !add_event_run. simpl. unfold add_event_result.
  by intros [= -> -> _].
Qed.

Lemma create_event_tab_core now f s0 s :
  core s0 = core s →
  core (exec (create_event_tab now f) s0) = core (exec (create_event_tab now f) s).
Proof.
  intros Hc. unfold create_event_tab.
  destruct (decide (event_title f = "")); [done|]. by apply add_event_core.
Qed.

Lemma editing_event_core s : core (exec editing_event s) = core s.
Proof.
  destruct (editing_event_stored s) as (H1 & H2 & H3 & _). unfold core. congruence.
Qed.

Lemma create_event_tab_run_core sd st today clock sub s :
  core (exec (create_event_tab_run sd st today clock sub) s) =
  match render_form sd st today clock (eval editing_event s), sub with
  | Returned _, Some (now, f) => core (exec (create_event_tab now f) s)
  | _, _ => core s
  end.
Proof.
  unfold create_event_tab_run. rewrite exec_bind.
  destruct (render_form sd st today clock (eval editing_event s)) as [v|e].
  - destruct sub as [[now f]|].
    + rewrite exec_bind. unfold exec at 1. simpl.
      apply create_event_tab_core, editing_event_core.
    + apply editing_event_core.
  - apply editing_event_core.
Qed.

Lemma add_event_result_lookup now d s id :
  editing_id s = Some id → id ∈ ids (stored s) →
  head (filter (λ e, ev_id e = id) (add_event_result now d s)) = Some (Event id d).
Proof.
  intros Hed Hid.
  destruct (add_event_result_present now d s id Hed Hid) as (n & e & Hn & He & Hpre & ->).
  apply (filter_id_lookup id _ n); [|done|].
  - apply list_lookup_insert_eq. by apply lookup_lt_Some in Hn.
  - by rewrite take_insert_ge by lia.
Qed.

Lemma form_mode_cases sd st today clock s v :
  eval (create_event_tab_run sd st today clock None) s = Returned v →
  (∃ id e, editing_id s = Some id ∧ id ≠ 0 ∧
           head (filter (λ e, ev_id e = id) (stored s)) = Some e)
  ∨ button_label v = "Create Event".
Proof.
  rewrite create_event_tab_run_view, editing_event_eval. intros Hv.
  apply render_form_Returned in Hv as (_ & Hb & _).
  destruct (editing_id s) as [id|]; [|by right].
  destruct (decide (id = 0)); [by right|].
  destruct (head (filter (λ e, ev_id e = id) (stored s))) as [e|] eqn:Hhead; [|by right].
  left. by exists id, e.
Qed.

(** X16.  When the form shows the button "Update Event", pressing it with a
    title that is not empty updates and does not create: the event under
    edit then holds the data of the form under its id, no id of the store
    has changed, and the edit is over. *)
Theorem update_button_updates sd st today clock s v now f :
  eval (create_event_tab_run sd st today clock None) s = Returned v →
  button_label v = "Update Event" → event_title f ≠ "" →
  let s' := exec (create_event_tab_run sd st today clock (Some (now, f))) s in
  ∃ id, editing_id s = Some id ∧
        eval (get_event_by_id id) s' = Some (Event id (form_event_data f)) ∧
        ids (stored s') = ids (stored s) ∧
        editing_id s' = None.
Proof.
  intros Hv Hb Ht s'.
  assert (core s' = core (exec (create_event_tab now f) s)) as Hcore.
  { subst s'. rewrite create_event_tab_run_core.
    rewrite create_event_tab_run_view in Hv. by rewrite Hv. }
  destruct (form_mode_cases sd st today clock s v Hv) as [(id & e & Hed & Hne & Hhead)|Hc];
    [|by rewrite Hc in Hb].
  assert (id ∈ ids (stored s)) as Hid.
  { destruct (decide (id ∈ ids (stored s))) as [|Hno]; [done|].
    by rewrite (filter_id_none id _ Hno) in Hhead. }
  unfold core in Hcore. injection Hcore as Hst Hedit _.
  unfold create_event_tab in Hst, Hedit.
  destruct (decide (event_title f = "")); [done|].
  exists id. split; [done|]. rewrite get_event_by_id_eval, Hst, Hedit.
  rewrite add_event_stored, add_event_editing_id. split; [|split; [|done]].
  - by apply add_event_result_lookup.
  - rewrite <- add_event_stored, add_event_ids. by rewrite Hed.
Qed.

Lemma update_button_updates_witness :
  ∃ id, editing_id editing_form_B = Some id ∧
        eval (get_event_by_id id)
             (exec (create_event_tab_run strptime_ymd strptime_hm (Date 2024 6 1) (Time 8 30)
                      (Some (9, form_B2))) editing_form_B)
        = Some (Event id (form_event_data form_B2)) ∧
        ids (stored (exec (create_event_tab_run strptime_ymd strptime_hm (Date 2024 6 1)
                             (Time 8 30) (Some (9, form_B2))) editing_form_B))
        = ids (stored editing_form_B) ∧
        editing_id (exec (create_event_tab_run strptime_ymd strptime_hm (Date 2024 6 1)
                            (Time 8 30) (Some (9, form_B2))) editing_form_B) = None.
Proof.
  apply (update_button_updates strptime_ymd strptime_hm (Date 2024 6 1) (Time 8 30)
           editing_form_B _ 9 form_B2 eq_refl).
  - reflexivity.
  - discriminate.
Defined.

(** ** The list page *)

Example display_date_ex : display_date (Date 2024 4 20) = "Sat, Apr 20, 2024".
Proof. reflexivity. Qed.

Example display_date_year_999 : display_date (Date 999 1 1) = "Tue, Jan 01, 999".
Proof. reflexivity. Qed.

Example display_time_ex : display_time (Time 14 5) = "02:05 PM".
Proof. reflexivity. Qed.

Example display_time_midnight : display_time (Time 0 30) = "12:30 AM".
Proof. reflexivity. Qed.

Lemma append_inj_l (p a b : string) : p +:+ a = p +:+ b → a = b.
Proof.
  induction p as [|c p IH]; [done|]. rewrite !append_String. intros [= H]. by apply IH.
Qed.

Lemma edit_key_not_delete_key (a b : string) : "edit_" +:+ a ≠ "delete_" +:+ b.
Proof. rewrite !append_String. discriminate. Qed.

Section ViewProofs.
Variable lower : string → string.
Variable strptime : string → result datetime.
Variable strptime_date : string → result date_obj.
Variable strptime_time : string → result time_obj.
Variable str_float : timestamp → string.

Local Abbreviation card_of := (render_card strptime_date strptime_time str_float).
Local Abbreviation cards_from := (render_cards_from strptime_date strptime_time str_float).
Local Abbreviation cards_of := (render_cards strptime_date strptime_time str_float).
Local Abbreviation page_of := (render_page strptime_date strptime_time str_float).
Local Abbreviation view_run :=
  (view_events_tab_run lower strptime strptime_date strptime_time str_float).

Local Abbreviation key_text := (λ e : event, str_float (ev_id e)).

Lemma render_card_Returned used i e c used' :
  card_of used i e = Returned (c, used') →
  card_column c = (i mod 3)%nat ∧ card_event c = e ∧
  edit_key c = "edit_" +:+ str_float (ev_id e) ∧
  delete_key c = "delete_" +:+ str_float (ev_id e) ∧
  used' = delete_key c :: edit_key c :: used ∧
  (edit_key c ∉ used) ∧ (delete_key c ∉ used) ∧
  card_parses strptime_date strptime_time e.
Proof.
  unfold render_card, rbind, st_button, card_parses.
  destruct (strptime_date _) as [d|?]; [|done].
  destruct (strptime_time _) as [t|?]; [|done].
  destruct (decide (_ ∈ used)) as [|Hn1]; [done|].
  destruct (decide (_ ∈ _ :: used)) as [|Hn2]; [done|].
  intros [= <- <-]. simpl. rewrite not_elem_of_cons in Hn2.
  repeat split; eauto; tauto.
Qed.

Lemma render_card_Raised used i e err :
  card_of used i e = Raised err →
  strptime_date (date (ev_fields e)) = Raised err ∨
  strptime_time (time (ev_fields e)) = Raised err ∨
  (err = DuplicateElementKey ("edit_" +:+ str_float (ev_id e)) ∧
   "edit_" +:+ str_float (ev_id e) ∈ used) ∨
  (("edit_" +:+ str_float (ev_id e) ∉ used) ∧
   "delete_" +:+ str_float (ev_id e) ∈ used).
Proof.
  unfold render_card, rbind, st_button.
  destruct (strptime_date _) as [d|?]; [|intros [= <-]; by left].
  destruct (strptime_time _) as [t|?]; [|intros [= <-]; right; by left].
  destruct (decide (_ ∈ used)) as [Hin|Hn1]; [intros [= <-]; right; right; by left|].
  destruct (decide (_ ∈ _ :: used)) as [Hin|Hn2]; [|done].
  intros _. right; right; right. split; [done|].
  apply elem_of_cons in Hin as [Heq|Hin]; [|done].
  symmetry in Heq. rewrite !append_String in Heq. discriminate Heq.
Qed.

Lemma render_cards_from_spec l : ∀ used i,
  (map card_event (fst (cards_from used i l))) `prefix_of` l ∧
  (snd (cards_from used i l) = None → map card_event (fst (cards_from used i l)) = l) ∧
  (∀ (j : nat) c, fst (cards_from used i l) !! j = Some c →
     card_column c = ((i + j) mod 3)%nat ∧
     edit_key c = "edit_" +:+ str_float (ev_id (card_event c)) ∧
     delete_key c = "delete_" +:+ str_float (ev_id (card_event c))).
Proof.
  induction l as [|e l IH]; intros used i; simpl.
  - split; [done|]. split; [done|]. intros j c Hc. by rewrite lookup_nil in Hc.
  - destruct (card_of used i e) as [[c used']|err] eqn:Hc; simpl.
    + destruct (render_card_Returned used i e c used' Hc) as (Hcol & Hev & Hek & Hdk & _).
      destruct (IH used' (S i)) as (Hpre & Hall & Hcards). rewrite Hev.
      split; [by apply prefix_cons|]. split; [intros Hn; by rewrite Hall|].
      intros [|j] c' Hc'; simpl in Hc'.
      * injection Hc' as <-. rewrite Hev, Nat.add_0_r. done.
      * destruct (Hcards j c' Hc') as (Hcol' & Hk'). split; [|done].
        rewrite Hcol'. by replace (i + S j)%nat with (S i + j)%nat by lia.
    + split; [apply prefix_nil|]. split; [done|].
      intros j c' Hc'. by rewrite lookup_nil in Hc'.
Qed.

Lemma render_cards_spec l i :
  (map card_event (fst (cards_of i l))) `prefix_of` l ∧
  (snd (cards_of i l) = None → map card_event (fst (cards_of i l)) = l) ∧
  (∀ (j : nat) c, fst (cards_of i l) !! j = Some c →
     card_column c = ((i + j) mod 3)%nat ∧
     edit_key c = "edit_" +:+ str_float (ev_id (card_event c)) ∧
     delete_key c = "delete_" +:+ str_float (ev_id (card_event c))).
Proof. apply render_cards_from_spec. Qed.

(** When the loop fails.  [seen] are the texts of the ids whose buttons are
    on the page: their keys, and no other key of a button, are taken. *)
Lemma render_cards_from_keys l : ∀ (used seen : list string) i,
  (∀ x, "edit_" +:+ x ∈ used ↔ x ∈ seen) →
  (∀ x, "delete_" +:+ x ∈ used ↔ x ∈ seen) →
  (snd (cards_from used i l) = None ↔
     Forall (card_parses strptime_date strptime_time) l ∧
     NoDup (map key_text l) ∧ ∀ e, e ∈ l → key_text e ∉ seen) ∧
  (∀ err, snd (cards_from used i l) = Some err →
     ∃ e, e ∈ l ∧
          (strptime_date (date (ev_fields e)) = Raised err ∨
           strptime_time (time (ev_fields e)) = Raised err ∨
           err = DuplicateElementKey ("edit_" +:+ key_text e))).
Proof.
  induction l as [|e l IH]; intros used seen i Hedit Hdel; simpl.
  - split; [|done]. split; [|done]. intros _. split; [constructor|].
    split; [constructor|]. by intros e ?%elem_of_nil.
  - destruct (card_of used i e) as [[c used']|err] eqn:Hc; simpl.
    + destruct (render_card_Returned used i e c used' Hc)
        as (_ & _ & Hek & Hdk & -> & Hfree & _ & Hparse).
      rewrite Hek in Hfree. rewrite Hedit in Hfree.
      destruct (IH (delete_key c :: edit_key c :: used) (key_text e :: seen) (S i))
        as [Hnone Hsome].
      { intros x. rewrite Hek, Hdk, !elem_of_cons, Hedit. split.
        - intros [H|[H|H]]; [by apply edit_key_not_delete_key in H| |by right].
          left. by apply append_inj_l in H.
        - intros [->|H]; [right; by left|by right; right]. }
      { intros x. rewrite Hek, Hdk, !elem_of_cons, Hdel. split.
        - intros [H|[H|H]]; [|symmetry in H; by apply edit_key_not_delete_key in H|by right].
          left. by apply append_inj_l in H.
        - intros [->|H]; [by left|by right; right]. }
      split.
      * rewrite Hnone, Forall_cons, NoDup_cons. split.
        -- intros (Hall & Hnd & Hnot). split; [done|]. split; [split; [|done]|].
           ++ intros Hin. apply list_elem_of_fmap in Hin as (e' & Heq & He').
              apply (Hnot e' He'). rewrite <- Heq. apply list_elem_of_here.
           ++ intros e' He'. apply elem_of_cons in He' as [->|He']; [done|].
              intros Hin. apply (Hnot e' He'). by apply list_elem_of_further.
        -- intros ((_ & Hall) & (Hnew & Hnd) & Hnot). split; [done|]. split; [done|].
           intros e' He' Hin. apply elem_of_cons in Hin as [Heq|Hin].
           ++ apply Hnew. rewrite <- Heq. apply list_elem_of_fmap. by exists e'.
           ++ apply (Hnot e'); [by apply list_elem_of_further|done].
      * intros err Herr. destruct (Hsome err Herr) as (e' & He' & Hwhy).
        exists e'. split; [by apply list_elem_of_further|done].
    + split.
      * split; [done|]. intros (Hall & _ & Hnot). exfalso.
        apply Forall_cons in Hall as [[[d Hd] [t Ht]] _].
        pose proof (Hnot e (list_elem_of_here _ _)) as Hfresh.
        destruct (render_card_Raised used i e err Hc) as [H|[H|[[_ H]|[Hn H]]]].
        -- by rewrite Hd in H.
        -- by rewrite Ht in H.
        -- by apply Hedit in H.
        -- by apply Hdel in H.
      * intros err' [= <-]. exists e. split; [apply list_elem_of_here|].
        destruct (render_card_Raised used i e err Hc) as [H|[H|[[H _]|[Hn H]]]].
        -- by left.
        -- right; by left.
        -- right; by right.
        -- exfalso. apply Hn. apply Hedit. by apply Hdel.
Qed.

Lemma page_keys_no_button :
  (∀ x, "edit_" +:+ x ∈ page_keys ↔ x ∈ @nil string) ∧
  (∀ x, "delete_" +:+ x ∈ page_keys ↔ x ∈ @nil string).
Proof.
  split; intros x; (split; [|by intros ?%elem_of_nil]); unfold page_keys;
    rewrite !elem_of_cons, !append_String;
    intros [H|[H|H]]; try discriminate H; by apply elem_of_nil in H.
Qed.

(** In the loop of [view_events_tab] the cards are all rendered exactly when
    the two parses return on every event and no two events have the same id
    text; what ends the loop otherwise is the [ValueError] of a parse or the
    duplicate key of an Edit button. *)
Lemma render_cards_failure l i :
  (snd (cards_of i l) = None ↔
     Forall (card_parses strptime_date strptime_time) l ∧ NoDup (map key_text l)) ∧
  (∀ err, snd (cards_of i l) = Some err →
     ∃ e, e ∈ l ∧
          (strptime_date (date (ev_fields e)) = Raised err ∨
           strptime_time (time (ev_fields e)) = Raised err ∨
           err = DuplicateElementKey ("edit_" +:+ key_text e))).
Proof.
  destruct page_keys_no_button as [Hedit Hdel].
  destruct (render_cards_from_keys l page_keys [] i Hedit Hdel) as [Hnone Hsome].
  split; [|done]. unfold render_cards. rewrite Hnone. split.
  - by intros (? & ? & _).
  - intros (? & ?). split; [done|]. split; [done|]. by intros e _ ?%elem_of_nil.
Qed.

Lemma view_run_eval q cf s :
  eval (view_run q cf) s =
  rbind (sort_events strptime (filtered_events lower (stored s) q cf))
        (λ sorted_events, Returned (page_of (stored s) sorted_events)).
Proof.
  unfold view_events_tab_run, eval, bind. by rewrite load_events_run.
Qed.

Lemma view_run_core q cf s : core (exec (view_run q cf) s) = core s.
Proof.
  unfold view_events_tab_run, exec, bind. by rewrite load_events_run.
Qed.

End ViewProofs.


(** A store in which an id is repeated: the page shows the first card and
    ends at the Edit button of the second. *)
Example view_page_repeated_id :
  ∃ c,
    eval (view_events_tab_run ascii_lower strptime strptime_ymd strptime_hm pretty
            "" "All Categories") viewing_repeated
    = Returned (EventCards [c] (Some (DuplicateElementKey "edit_1000"))) ∧
    card_event c = Event 1000 (form_event_data form_B).
Proof. eexists. split; [vm_compute; reflexivity|reflexivity]. Qed.

(** ** The keys of the buttons *)

Lemma elem_of_flat_map {A B} (f : A → list B) (l : list A) (x : B) :
  x ∈ flat_map f l ↔ ∃ y, x ∈ f y ∧ y ∈ l.
Proof.
  induction l as [|a l IH]; simpl.
  - split; [by intros ?%elem_of_nil|by intros (y & _ & ?%elem_of_nil)].
  - rewrite elem_of_app, IH. split.
    + intros [H|(y & Hx & Hy)].
      * exists a. split; [done|apply list_elem_of_here].
      * exists y. split; [done|by apply list_elem_of_further].
    + intros (y & Hx & Hy). apply elem_of_cons in Hy as [->|Hy]; [by left|].
      right. by exists y.
Qed.

Lemma id_keys_NoDup (sf : timestamp → string) (l : list timestamp) :
  (∀ a b, sf a = sf b → a = b) →
  NoDup l ↔ NoDup (flat_map (λ id, ["edit_" +:+ sf id; "delete_" +:+ sf id]) l).
Proof.
  intros Hinj. induction l as [|x l IH]; simpl.
  - split; constructor.
  - rewrite !NoDup_cons, <- IH, !elem_of_cons, !elem_of_flat_map. split.
    + intros [Hx Hl]. split; [|split; [|done]].
      * intros [H|(y & Hk & Hy)]; [by apply edit_key_not_delete_key in H|].
        rewrite !elem_of_cons in Hk.
        destruct Hk as [Hk|[Hk|Hk]].
        -- apply append_inj_l, Hinj in Hk. by subst.
        -- by apply edit_key_not_delete_key in Hk.
        -- by apply elem_of_nil in Hk.
      * intros (y & Hk & Hy). rewrite !elem_of_cons in Hk.
        destruct Hk as [Hk|[Hk|Hk]].
        -- symmetry in Hk. by apply edit_key_not_delete_key in Hk.
        -- apply append_inj_l, Hinj in Hk. by subst.
        -- by apply elem_of_nil in Hk.
    + intros (Hx & _ & Hl). split; [|done].
      intros Hin. apply Hx. right. exists x. split; [|done]. apply list_elem_of_here.
Qed.

Lemma button_keys_from_by_id sd st (sf : timestamp → string) l : ∀ used i,
  button_keys (fst (render_cards_from sd st sf used i l)) =
  flat_map (λ id, ["edit_" +:+ sf id; "delete_" +:+ sf id])
           (map (λ c, ev_id (card_event c)) (fst (render_cards_from sd st sf used i l))).
Proof.
  induction l as [|e l IH]; intros used i; simpl; [done|].
  destruct (render_card sd st sf used i e) as [[c used']|err] eqn:Hc; simpl; [|done].
  destruct (render_card_Returned sd st sf used i e c used' Hc) as (_ & -> & -> & -> & _).
  f_equal. f_equal. apply IH.
Qed.

Lemma button_keys_by_id sd st (sf : timestamp → string) l i :
  button_keys (fst (render_cards sd st sf i l)) =
  flat_map (λ id, ["edit_" +:+ sf id; "delete_" +:+ sf id])
           (map (λ c, ev_id (card_event c)) (fst (render_cards sd st sf i l))).
Proof. apply button_keys_from_by_id. Qed.

(** X18.  The keys of the Edit and Delete buttons of the cards rendered are
    all different exactly when the events of these cards have different
    ids: two cards get the same pair of keys exactly when their events share
    an id.  The text of distinct floats is distinct.  The same holds of the
    keys that lines 210 and 212 make for the events of any list, rendered or
    not: they are all different exactly when the ids of the list are. *)
Theorem button_keys_unique sd st (sf : timestamp → string) i l :
  (∀ a b, sf a = sf b → a = b) →
  let cards := fst (render_cards sd st sf i l) in
  (NoDup (button_keys cards) ↔ NoDup (map (λ c, ev_id (card_event c)) cards)) ∧
  (NoDup (flat_map (λ id, ["edit_" +:+ sf id; "delete_" +:+ sf id]) (ids l))
   ↔ NoDup (ids l)).
Proof.
  intros Hinj cards. subst cards. split.
  - rewrite button_keys_by_id. symmetry. by apply id_keys_NoDup.
  - symmetry. by apply id_keys_NoDup.
Qed.

Lemma button_keys_unique_witness :
  NoDup (button_keys (fst (render_cards strptime_ymd strptime_hm pretty 0
                             [event_B; event_A]))) ∧
  ¬ NoDup (flat_map (λ id, ["edit_" +:+ pretty id; "delete_" +:+ pretty id])
             (ids (stored viewing_repeated))).
Proof.
  destruct (button_keys_unique strptime_ymd strptime_hm pretty 0 [event_B; event_A])
    as [Hcards _]; [intros a b Hab; by apply (inj pretty)|].
  destruct (button_keys_unique strptime_ymd strptime_hm pretty 0 (stored viewing_repeated))
    as [_ Hkeys]; [intros a b Hab; by apply (inj pretty)|].
  split.
  - apply Hcards. decide_goal.
  - rewrite Hkeys. decide_goal.
Defined.

(** ** The texts of date and time on a card *)

Lemma digit_inj a b : 0 ≤ a ≤ 9 → 0 ≤ b ≤ 9 → digit a = digit b → a = b.
Proof.
  intros Ha Hb Hab. pose proof (digit_val_digit a Ha) as H1.
  rewrite Hab, (digit_val_digit b Hb) in H1. by injection H1.
Qed.

Lemma zpad2_inj a b (r1 r2 : string) :
  0 ≤ a ≤ 99 → 0 ≤ b ≤ 99 → zpad2 a +:+ r1 = zpad2 b +:+ r2 → a = b ∧ r1 = r2.
Proof.
  intros Ha Hb. unfold zpad2. rewrite !append_String, !append_empty.
  intros [= H1 H2 Hr].
  apply digit_inj in H1; [|Z.div_mod_to_equations; lia..].
  apply digit_inj in H2; [|Z.div_mod_to_equations; lia..].
  split; [|done]. Z.div_mod_to_equations. lia.
Qed.

Lemma zpad4_inj a b : 0 ≤ a ≤ 9999 → 0 ≤ b ≤ 9999 → zpad4 a = zpad4 b → a = b.
Proof.
  intros Ha Hb. unfold zpad4, zpad2. intros [= H1 H2 H3 H4].
  apply digit_inj in H1; [|Z.div_mod_to_equations; lia..].
  apply digit_inj in H2; [|Z.div_mod_to_equations; lia..].
  apply digit_inj in H3; [|Z.div_mod_to_equations; lia..].
  apply digit_inj in H4; [|Z.div_mod_to_equations; lia..].
  Z.div_mod_to_equations. lia.
Qed.

(** The text of the year tells the years apart, with or without the
    padding: below 1000 it has as many digits as the year. *)
Lemma year_text_inj a b :
  0 ≤ a ≤ 9999 → 0 ≤ b ≤ 9999 → year_text a = year_text b → a = b.
Proof.
  intros Ha Hb. unfold year_text, zpad4, zpad2.
  destruct (Z.ltb_spec a 10), (Z.ltb_spec a 100), (Z.ltb_spec a 1000),
           (Z.ltb_spec b 10), (Z.ltb_spec b 100), (Z.ltb_spec b 1000);
    try lia; intros Heq; try discriminate Heq; injection Heq; intros;
    repeat match goal with
           | Hd : digit _ = digit _ |- _ =>
               apply digit_inj in Hd; [|Z.div_mod_to_equations; lia..]
           end;
    Z.div_mod_to_equations; lia.
Qed.

Lemma hour12_bounds h : 0 ≤ h ≤ 23 → 1 ≤ hour12 h ≤ 12.
Proof.
  intros Hh. unfold hour12. destruct (Z.eqb_spec (h mod 12) 0); [lia|].
  Z.div_mod_to_equations. lia.
Qed.

Lemma append_inj_length (p1 p2 a b : string) :
  String.length p1 = String.length p2 → p1 +:+ a = p2 +:+ b → p1 = p2 ∧ a = b.
Proof.
  revert p2. induction p1 as [|c p1 IH]; intros [|c' p2] Hlen; try done.
  rewrite !append_String. intros [= -> H]. injection Hlen as Hlen.
  destruct (IH p2 Hlen H) as [-> ->]. done.
Qed.

Lemma day_abbr_length w : String.length (day_abbr w) = 3%nat.
Proof.
  unfold day_abbr.
  repeat (match goal with |- context [if ?x then _ else _] => destruct x end); done.
Qed.

Lemma month_abbr_length m : String.length (month_abbr m) = 3%nat.
Proof.
  unfold month_abbr.
  repeat (match goal with |- context [if ?x then _ else _] => destruct x end); done.
Qed.

Lemma month_abbr_inj m m' :
  1 ≤ m ≤ 12 → 1 ≤ m' ≤ 12 → month_abbr m = month_abbr m' → m = m'.
Proof.
  intros Hm Hm'. month_cases m; month_cases m'; try done; by intros [=].
Qed.

(** X19.  The card tells dates and times apart: two different times of day
    never have the same text (the suffix AM or PM tells the two halves of the
    day apart, midnight and noon showing as 12), and two different dates
    never have the same text, the year being written without padding below
    1000 ('Tue, Jan 01, 999'). *)
Theorem display_texts_injective :
  (∀ t1 t2, valid_time t1 → valid_time t2 → display_time t1 = display_time t2 → t1 = t2) ∧
  (∀ d1 d2, valid_date d1 → valid_date d2 → display_date d1 = display_date d2 → d1 = d2).
Proof.
  split.
  - intros [h1 m1] [h2 m2] [Hh1 Hm1] [Hh2 Hm2]. unfold display_time. simpl in *.
    pose proof (hour12_bounds h1 Hh1) as Hb1. pose proof (hour12_bounds h2 Hh2) as Hb2.
    intros H. apply zpad2_inj in H as [Hh H]; [|lia..].
    apply append_inj_l in H. apply zpad2_inj in H as [-> H]; [|lia..].
    apply append_inj_l in H.
    f_equal. unfold hour12 in Hh.
    destruct (Z.ltb_spec h1 12), (Z.ltb_spec h2 12); try discriminate H;
      destruct (Z.eqb_spec (h1 mod 12) 0), (Z.eqb_spec (h2 mod 12) 0);
      Z.div_mod_to_equations; lia.
  - intros [y1 m1 d1] [y2 m2 d2] (Hy1 & Hm1 & Hd1) (Hy2 & Hm2 & Hd2).
    unfold display_date. simpl in *.
    pose proof (days_in_month_bounds y1 m1) as Hb1.
    pose proof (days_in_month_bounds y2 m2) as Hb2.
    intros H. apply append_inj_length in H as [_ H];
      [|by rewrite !day_abbr_length].
    apply append_inj_l in H. apply append_inj_length in H as [Hm H];
      [|by rewrite !month_abbr_length].
    apply month_abbr_inj in Hm as <-; [|done..].
    apply append_inj_l in H. apply zpad2_inj in H as [<- H]; [|lia..].
    apply append_inj_l in H. apply year_text_inj in H as <-; [done|lia..].
Qed.

Lemma display_texts_injective_witness :
  display_time (Time 2 5) ≠ display_time (Time 14 5) ∧
  display_date (Date 2024 4 20) ≠ display_date (Date 2024 4 21) ∧
  display_date (Date 999 1 1) ≠ display_date (Date 99 1 1).
Proof.
  destruct display_texts_injective as [Htime Hdate]. split; [|split].
  - intros H. apply Htime in H; [discriminate H| |]; unfold valid_time; decide_goal.
  - intros H. apply Hdate in H; [discriminate H| |]; unfold valid_date; decide_goal.
  - intros H. apply Hdate in H; [discriminate H| |]; unfold valid_date; decide_goal.
Defined.

(** ** The sessions a user can bring about *)

Lemma eval_bind {A B} (m : M A) (k : A → M B) s :
  eval (bind m k) s = eval (k (eval m s)) (exec m s).
Proof. reflexivity. Qed.

Lemma create_event_tab_run_eval sd st today clock sub s :
  eval (create_event_tab_run sd st today clock sub) s
  = render_form sd st today clock (eval editing_event s).
Proof.
  unfold create_event_tab_run, eval, bind.
  destruct (render_form sd st today clock (editing_event s).1); [|done].
  by destruct sub as [[now f]|].
Qed.

Lemma session_inv_core s0 s : core s0 = core s → session_inv s → session_inv s0.
Proof.
  unfold core, session_inv. intros [= -> -> ->]. done.
Qed.

Lemma create_event_tab_inv now f s :
  valid_form f → current_tab s = CreateEventTab → session_inv s →
  session_inv (exec (create_event_tab now f) s).
Proof.
  intros Hf Htab (Hlen & Hed & Hnil & Hfw). unfold create_event_tab.
  destruct (decide (event_title f = "")) as [|Htitle]; [done|].
  assert (Forall form_written (stored (exec (add_event now (form_event_data f)) s))) as Hfw'.
  { apply add_event_Forall; [done|]. intros id. by exists f. }
  unfold session_inv. rewrite add_event_editing_id.
  assert (current_tab (exec (add_event now (form_event_data f)) s) = ViewEventsTab) as Htab'.
  { unfold exec. by rewrite add_event_run. }
  rewrite Htab'. split; [|by repeat split].
  rewrite add_event_stored.
  destruct (editing_id s) as [id|] eqn:Hid.
  - destruct (Hed id eq_refl) as [Hin _].
    destruct (add_event_result_present now (form_event_data f) s id Hid Hin)
      as (n & e & _ & _ & _ & ->).
    by rewrite length_insert.
  - rewrite add_event_result_create by done. by rewrite (Hnil Htab eq_refl).
Qed.

Lemma start_edit_event_inv id s :
  id ∈ ids (stored s) → session_inv s → session_inv (exec (start_edit_event id) s).
Proof.
  intros Hid (Hlen & Hed & Hnil & Hfw). unfold session_inv. simpl.
  split; [done|]. split; [|done]. intros id' [= <-]. done.
Qed.

Lemma delete_event_inv id s :
  current_tab s = ViewEventsTab → session_inv s → session_inv (exec (delete_event id) s).
Proof.
  intros Htab (Hlen & Hed & Hnil & Hfw).
  assert (editing_id s = None) as Hnone.
  { destruct (editing_id s) as [id'|] eqn:E; [|done].
    destruct (Hed id' eq_refl) as [_ H]. congruence. }
  unfold session_inv. rewrite delete_event_stored.
  unfold exec. rewrite delete_event_run. simpl. rewrite Hnone, Htab.
  split; [|split; [done|split; [done|by apply Forall_filter_keep]]].
  etrans; [apply length_filter|done].
Qed.

Section SessionProofs.
Variable lower : string → string.
Variable strptime : string → result datetime.
Variable strptime_date : string → result date_obj.
Variable strptime_time : string → result time_obj.
Variable str_float : timestamp → string.

Local Abbreviation main_of := (main lower strptime strptime_date strptime_time str_float).
Local Abbreviation run_of :=
  (run_action lower strptime strptime_date strptime_time str_float).
Local Abbreviation view_of :=
  (view_events_tab_run lower strptime strptime_date strptime_time str_float).
Local Abbreviation form_of := (create_event_tab_run strptime_date strptime_time).
Local Abbreviation reach :=
  (reachable lower strptime strptime_date strptime_time str_float).

Lemma main_core env sub s :
  core (exec (main_of env sub) s) =
  match current_tab s with
  | CreateEventTab => core (exec (form_of (env_today env) (env_clock env) sub) s)
  | ViewEventsTab => core s
  end.
Proof.
  destruct (current_tab s) eqn:Htab.
  - unfold main, exec, bind, get_session. simpl. by rewrite Htab.
  - rewrite <- (view_run_core lower strptime strptime_date strptime_time str_float
                  (env_query env) (env_filter env) s).
    unfold main, exec, bind, get_session. simpl. by rewrite Htab.
Qed.

Lemma main_eval env sub s :
  eval (main_of env sub) s =
  match current_tab s with
  | CreateEventTab =>
      match render_form strptime_date strptime_time (env_today env) (env_clock env)
              (eval editing_event s) with
      | Returned v => FormScreen v
      | Raised e => ErrorScreen e
      end
  | ViewEventsTab =>
      match eval (view_of (env_query env) (env_filter env)) s with
      | Returned p => ListScreen p
      | Raised e => ErrorScreen e
      end
  end.
Proof.
  destruct (current_tab s) eqn:Htab.
  - rewrite <- (create_event_tab_run_eval _ _ _ _ sub).
    unfold main, eval, bind, get_session. simpl. by rewrite Htab.
  - unfold main, eval, bind, get_session. simpl. by rewrite Htab.
Qed.

(** The cards of the list page are cards of stored events. *)
Lemma view_shown_stored q cf s cards failure c :
  eval (view_of q cf) s = Returned (EventCards cards failure) →
  c ∈ cards → card_event c ∈ stored s.
Proof.
  rewrite view_run_eval. unfold rbind.
  destruct (sort_events strptime (filtered_events lower (stored s) q cf))
    as [ys|err] eqn:Hsort; [|done].
  intros [= Hp] Hc.
  pose proof (sort_events_Returned_keys _ _ _ Hsort) as Hkeys.
  destruct (sort_events_parsed strptime _ Hkeys) as (ys' & Hys' & Hperm & _).
  rewrite Hsort in Hys'. injection Hys' as <-.
  assert (card_event c ∈ ys) as Hin.
  { unfold render_page in Hp. destruct (stored s); [done|]. destruct ys as [|y ys]; [done|].
    injection Hp as <- _.
    destruct (render_cards_spec strptime_date strptime_time str_float (y :: ys) 0)
      as (Hpre & _).
    destruct Hpre as [k Hk]. rewrite Hk. apply elem_of_app. left. by apply list_elem_of_fmap_2. }
  rewrite Hperm in Hin.
  rewrite filtered_events_filter in Hin. by apply list_elem_of_filter in Hin as [_ Hin].
Qed.

Lemma main_screen_inv env sub s :
  screen_inv (exec (main_of env sub) s) (eval (main_of env sub) s).
Proof.
  intros id Hid. rewrite main_eval in Hid.
  assert (core (exec (main_of env sub) s) = core s ∧ current_tab s = ViewEventsTab
          ∧ id ∈ ids (stored s)) as (Hcore & Htab & Hin).
  { rewrite main_core. destruct (current_tab s) eqn:Htab.
    - destruct (render_form _ _ _ _ _); by apply elem_of_nil in Hid.
    - destruct (eval (view_of (env_query env) (env_filter env)) s) as [p|e] eqn:Hp;
        [|by apply elem_of_nil in Hid].
      destruct p as [| |cards failure]; try by apply elem_of_nil in Hid.
      split; [done|]. split; [done|]. simpl in Hid.
      apply list_elem_of_fmap in Hid as (c & -> & Hc).
      unfold ids. apply list_elem_of_fmap_2.
      by apply (view_shown_stored _ _ _ _ _ _ Hp). }
  unfold core in Hcore. injection Hcore as -> _ ->. done.
Qed.

Lemma main_inv env sub s :
  (∀ now f, sub = Some (now, f) → valid_form f) →
  session_inv s → session_inv (exec (main_of env sub) s).
Proof.
  intros Hsub Hinv. apply (session_inv_core _ (match current_tab s with
    | CreateEventTab => exec (form_of (env_today env) (env_clock env) sub) s
    | ViewEventsTab => s end)).
  { rewrite main_core. by destruct (current_tab s). }
  destruct (current_tab s) eqn:Htab; [|done].
  pose proof (create_event_tab_run_core strptime_date strptime_time
                (env_today env) (env_clock env) sub s) as Hcore.
  destruct (render_form _ _ _ _ _) as [v|e].
  - destruct sub as [[now f]|].
    + apply (session_inv_core _ _ Hcore). apply create_event_tab_inv; eauto.
    + by apply (session_inv_core _ _ Hcore).
  - by apply (session_inv_core _ _ Hcore).
Qed.

Lemma reachable_inv s scr : reach s scr → session_inv s ∧ screen_inv s scr.
Proof.
  induction 1 as [env Henv|s scr a env Hreach [Hinv Hscr] Hen Henv].
  - split; [|apply main_screen_inv].
    apply main_inv; [done|]. unfold session_inv. simpl.
    split; [lia|]. split; [done|]. split; [done|constructor].
  - destruct a as [|now f|id|id]; simpl in *.
    + split; [by apply main_inv|apply main_screen_inv].
    + destruct Hen as [_ Hf].
      split; [|apply main_screen_inv]. apply main_inv; [|done].
      by intros ? ? [= <- <-].
    + destruct (Hscr id Hen) as [Hin Htab]. rewrite exec_bind, eval_bind.
      split; [|apply main_screen_inv].
      apply main_inv; [done|]. by apply start_edit_event_inv.
    + destruct (Hscr id Hen) as [Hin Htab]. rewrite exec_bind, eval_bind.
      split; [|apply main_screen_inv].
      apply main_inv; [done|]. by apply delete_event_inv.
Qed.
End SessionProofs.

Lemma valid_env0 : valid_env env0.
Proof. unfold valid_env, valid_date, valid_time. decide_goal. Qed.

Lemma reachable_example :
  reachable ascii_lower strptime strptime_ymd strptime_hm pretty session4 screen4.
Proof.
  apply (reachable_next _ _ _ _ _ session3 screen3 (ClickEdit 1) env0);
    [|vm_compute; apply list_elem_of_here|apply valid_env0].
  apply (reachable_next _ _ _ _ _ session2 screen2 Rerun env0);
    [|exact I|apply valid_env0].
  apply (reachable_next _ _ _ _ _ session1 screen1 (SubmitForm 1 form_A) env0);
    [| |apply valid_env0].
  - apply (reachable_first _ _ _ _ _ env0), valid_env0.
  - split; [by eexists|apply valid_form_A].
Qed.

Example session4_edits_event_1 :
  stored session4 = [Event 1 (form_event_data form_A)] ∧ editing_id session4 = Some 1 ∧
  ∃ v, screen4 = FormScreen v ∧ heading v = "Edit Event" ∧ default_title v = "Team Sync".
Proof. split; [reflexivity|]. split; [reflexivity|]. eexists. by split. Qed.

(** X20.  Through the pages that [main] renders, a session never holds more
    than one event.  The form is rendered only while the tab is
    "Create Event"; a submission that stores an event moves the session to
    "View Events", and from there only the Edit button of a stored event
    leads back to the form, which then updates that event.  So the ids of the
    store are always unique. *)
Theorem reachable_single_event lower strptime sd st sf s scr :
  reachable lower strptime sd st sf s scr →
  (length (stored s) ≤ 1)%nat ∧ NoDup (ids (stored s)).
Proof.
  intros Hreach. destruct (reachable_inv _ _ _ _ _ _ _ Hreach) as [(Hlen & _) _].
  split; [done|]. unfold ids.
  destruct (stored s) as [|e [|e' l]]; simpl in *; [constructor| |lia].
  apply NoDup_singleton.
Qed.

Lemma reachable_single_event_witness :
  (length (stored session4) ≤ 1)%nat ∧ NoDup (ids (stored session4)).
Proof.
  apply (reachable_single_event ascii_lower strptime strptime_ymd strptime_hm pretty
           session4 screen4).
  apply reachable_example.
Defined.

(** X21.  Through the pages that [main] renders, the edit id is never
    dangling: whenever it is set it is the id of a stored event and the
    session is on the form tab, so on the list tab no edit is pending; and
    the Edit and Delete buttons on the screen belong to stored events.  The
    branch of [add_event] for an edit id that is not found is never taken. *)
Theorem reachable_edit_resolves lower strptime sd st sf s scr :
  reachable lower strptime sd st sf s scr →
  (∀ id, editing_id s = Some id → id ∈ ids (stored s) ∧ current_tab s = CreateEventTab) ∧
  (current_tab s = ViewEventsTab → editing_id s = None) ∧
  (∀ id, id ∈ shown_ids scr → id ∈ ids (stored s)).
Proof.
  intros Hreach. destruct (reachable_inv _ _ _ _ _ _ _ Hreach) as [(_ & Hed & _) Hscr].
  split; [done|]. split.
  - intros Htab. destruct (editing_id s) as [id|] eqn:E; [|done].
    destruct (Hed id eq_refl) as [_ H]. congruence.
  - intros id Hid. by destruct (Hscr id Hid).
Qed.

Lemma reachable_edit_resolves_witness :
  1 ∈ ids (stored session4) ∧ current_tab session4 = CreateEventTab.
Proof.
  destruct (reachable_edit_resolves ascii_lower strptime strptime_ymd strptime_hm pretty
              session4 screen4 reachable_example) as (Hed & _).
  by apply Hed.
Defined.



(** ** No run of a session raises *)

(** A date before the year 1000 can be entered, and the run that follows
    raises: the sort of line 60 does not read the date that line 103
    wrote. *)
Example year_999_raises :
  reachable ascii_lower strptime strptime_ymd strptime_hm pretty
    (exec (run0 Rerun) (exec (run0 (SubmitForm 1 form_old)) session1))
    (eval (run0 Rerun) (exec (run0 (SubmitForm 1 form_old)) session1)) ∧
  eval (run0 Rerun) (exec (run0 (SubmitForm 1 form_old)) session1)
  = ErrorScreen (ValueError "time data does not match format").
Proof.
  split; [|reflexivity].
  apply (reachable_next _ _ _ _ _ (exec (run0 (SubmitForm 1 form_old)) session1)
           (eval (run0 (SubmitForm 1 form_old)) session1) Rerun env0);
    [|exact I|apply valid_env0].
  apply (reachable_next _ _ _ _ _ session1 screen1 (SubmitForm 1 form_old) env0);
    [| |apply valid_env0].
  - apply (reachable_first _ _ _ _ _ env0), valid_env0.
  - split; [by eexists|]. unfold valid_form, valid_date, valid_time. decide_goal.
Qed.

Section NoErrorProofs.
Variable lower : string → string.
Variable strptime : string → result datetime.
Variable strptime_date : string → result date_obj.
Variable strptime_time : string → result time_obj.
Variable str_float : timestamp → string.
Hypothesis parser_reads_back : reads_back strptime.
Hypothesis date_reads_back : reads_back_date strptime_date.
Hypothesis time_reads_back : reads_back_time strptime_time.

Local Abbreviation main_of := (main lower strptime strptime_date strptime_time str_float).
Local Abbreviation run_of :=
  (run_action lower strptime strptime_date strptime_time str_float).
Local Abbreviation view_of :=
  (view_events_tab_run lower strptime strptime_date strptime_time str_float).
Local Abbreviation form_of := (create_event_tab_run strptime_date strptime_time).
Local Abbreviation cards_of := (render_cards strptime_date strptime_time str_float).
Local Abbreviation reach :=
  (reachable lower strptime strptime_date strptime_time str_float).
Local Abbreviation reach4 :=
  (reachable_four_digit lower strptime strptime_date strptime_time str_float).

Lemma reachable_four_digit_reachable s scr : reach4 s scr → reach s scr.
Proof.
  induction 1 as [env Henv _|s scr a env _ IH Hen _ Henv _].
  - by apply reachable_first.
  - by apply (reachable_next _ _ _ _ _ s scr).
Qed.

Lemma stored_core s0 s : core s0 = core s → stored s0 = stored s.
Proof. unfold core. by intros [= -> _ _]. Qed.

Lemma main_stored_Forall (P : event → Prop) env sub s :
  (∀ now f id, sub = Some (now, f) → P (Event id (form_event_data f))) →
  Forall P (stored s) → Forall P (stored (exec (main_of env sub) s)).
Proof.
  intros Hsub Hs.
  pose proof (main_core lower strptime strptime_date strptime_time str_float env sub s)
    as Hcore.
  destruct (current_tab s); [|by rewrite (stored_core _ _ Hcore)].
  rewrite create_event_tab_run_core in Hcore.
  destruct (render_form _ _ _ _ _) as [v|e]; [|by rewrite (stored_core _ _ Hcore)].
  destruct sub as [[now f]|]; [|by rewrite (stored_core _ _ Hcore)].
  rewrite (stored_core _ _ Hcore). apply create_event_tab_Forall; [|done].
  intros id. by apply (Hsub now f).
Qed.

(** While the dates entered are of the year 1000 or later, the stored
    events are written by the form from such dates. *)
Lemma reachable_four_digit_written s scr :
  reach4 s scr → Forall form_written_four_digit (stored s).
Proof.
  induction 1 as [env Henv _|s scr a env _ IH Hen Hfour Henv _].
  - apply main_stored_Forall; [done|constructor].
  - destruct a as [|now f|id|id]; simpl in *.
    + by apply main_stored_Forall.
    + destruct Hen as [_ Hf]. apply main_stored_Forall; [|done].
      intros ? ? id [= <- <-]. by exists f.
    + rewrite exec_bind. by apply main_stored_Forall.
    + rewrite exec_bind. apply main_stored_Forall; [done|].
      rewrite delete_event_stored. by apply Forall_filter_keep.
Qed.

Lemma render_form_ok today clock ee :
  valid_date today → 1000 ≤ d_year today → valid_time clock →
  (∀ e, ee = Some e → form_written_four_digit e) →
  ∃ v, render_form strptime_date strptime_time today clock ee = Returned v.
Proof.
  intros Hd Hy Ht Hee. unfold render_form, rbind. destruct ee as [e|].
  - destruct (Hee e eq_refl) as (f & (Hfd & Hft & Hfc) & Hfy & ->).
    cbn [ev_fields form_event_data date time category title location description].
    destruct (list_index_elem _ _ Hfc) as (i & Hi & _).
    rewrite (date_reads_back _ Hfd Hfy), (time_reads_back _ Hft), Hi. by eexists.
  - rewrite (date_reads_back _ Hd Hy), (time_reads_back _ Ht). by eexists.
Qed.

Lemma form_written_card_parses e :
  form_written_four_digit e → card_parses strptime_date strptime_time e.
Proof.
  intros (f & (Hfd & Hft & _) & Hfy & Hf). unfold card_parses. rewrite Hf.
  cbn [ev_fields form_event_data date time].
  rewrite (date_reads_back _ Hfd Hfy), (time_reads_back _ Hft). split; by eexists.
Qed.

(** The cards of at most one event written by the form are all rendered:
    the parses return, and the keys of its two buttons are free. *)
Lemma render_cards_ok l i :
  Forall form_written_four_digit l → (length l ≤ 1)%nat → snd (cards_of i l) = None.
Proof.
  intros Hl Hlen.
  apply (render_cards_failure strptime_date strptime_time str_float l i). split.
  - eapply Forall_impl; [exact Hl|apply form_written_card_parses].
  - destruct l as [|e [|e' l]]; simpl in *; [constructor|apply NoDup_singleton|lia].
Qed.

Lemma main_no_error env sub s :
  session_inv s → Forall form_written_four_digit (stored s) →
  valid_env env → four_digit_env env →
  (∀ e, eval (main_of env sub) s ≠ ErrorScreen e) ∧
  (∀ cards failure,
     eval (main_of env sub) s = ListScreen (EventCards cards failure) → failure = None).
Proof.
  intros (Hlen & _) Hfw [Hd Ht] Hy. rewrite main_eval.
  destruct (current_tab s).
  - destruct (render_form_ok (env_today env) (env_clock env) (eval editing_event s) Hd Hy Ht)
      as [v ->]; [|done].
    intros e. rewrite editing_event_eval.
    destruct (editing_id s) as [id|]; [|done]. destruct (decide (id = 0)); [done|].
    intros Hhead. apply head_Some_elem_of, list_elem_of_filter in Hhead as [_ Hin].
    rewrite Forall_forall in Hfw. by apply Hfw.
  - rewrite view_run_eval.
    assert (Forall form_written_four_digit
              (filtered_events lower (stored s) (env_query env) (env_filter env))) as Hfil
      by by apply filtered_events_Forall.
    assert (Forall well_formed
              (filtered_events lower (stored s) (env_query env) (env_filter env))) as Hwf.
    { eapply Forall_impl; [exact Hfil|apply form_written_well_formed]. }
    destruct (sort_events_parsed strptime _ (well_formed_keys strptime parser_reads_back _ Hwf))
      as (ys & -> & Hperm & _).
    unfold rbind. split; [done|]. intros cards failure [= Hp].
    unfold render_page in Hp. destruct (stored s) as [|a l] eqn:Hst; [done|].
    destruct ys as [|y ys]; [done|].
    injection Hp as _ <-. apply (render_cards_ok (y :: ys) 0); [by rewrite Hperm|].
    rewrite (Permutation_length Hperm), filtered_events_filter.
    etrans; [apply length_filter|done].
Qed.

Lemma reachable_source s scr :
  reach4 s scr →
  ∃ s0 env sub, session_inv s0 ∧ Forall form_written_four_digit (stored s0) ∧
                valid_env env ∧ four_digit_env env ∧ scr = eval (main_of env sub) s0.
Proof.
  destruct 1 as [env Henv Hy|s scr a env Hreach Hen Hfour Henv Hy].
  - exists initial_session, env, None. split; [|split; [apply Forall_nil_2|done]].
    unfold session_inv. simpl. split; [lia|]. split; [done|]. split; [done|constructor].
  - pose proof (reachable_four_digit_written _ _ Hreach) as Hfw.
    destruct (reachable_inv _ _ _ _ _ _ _ (reachable_four_digit_reachable _ _ Hreach))
      as [Hinv Hscr].
    destruct a as [|now f|id|id]; simpl in *.
    + by exists s, env, None.
    + by exists s, env, (Some (now, f)).
    + destruct (Hscr id Hen) as [Hin Htab].
      exists (exec (start_edit_event id) s), env, None.
      split; [by apply start_edit_event_inv|done].
    + destruct (Hscr id Hen) as [Hin Htab].
      exists (exec (delete_event id) s), env, None.
      split; [by apply delete_event_inv|].
      split; [|done]. rewrite delete_event_stored. by apply Forall_filter_keep.
Qed.

Lemma reachable_no_error s scr :
  reach4 s scr →
  (∀ e, scr ≠ ErrorScreen e) ∧
  (∀ cards failure, scr = ListScreen (EventCards cards failure) → failure = None).
Proof.
  intros (s0 & env & sub & Hinv & Hfw & Henv & Hy & ->)%reachable_source.
  by apply main_no_error.
Qed.
End NoErrorProofs.

Lemma reachable_four_digit_example :
  reachable_four_digit ascii_lower strptime strptime_ymd strptime_hm pretty session4 screen4.
Proof.
  assert (four_digit_env env0) as Hy by (unfold four_digit_env; simpl; lia).
  apply (reachable_four_digit_next _ _ _ _ _ session3 screen3 (ClickEdit 1) env0);
    [|vm_compute; apply list_elem_of_here|exact I|apply valid_env0|exact Hy].
  apply (reachable_four_digit_next _ _ _ _ _ session2 screen2 Rerun env0);
    [|exact I|exact I|apply valid_env0|exact Hy].
  apply (reachable_four_digit_next _ _ _ _ _ session1 screen1 (SubmitForm 1 form_A) env0);
    [| | |apply valid_env0|exact Hy].
  - apply (reachable_four_digit_first _ _ _ _ _ env0); [apply valid_env0|exact Hy].
  - split; [by eexists|apply valid_form_A].
  - unfold four_digit_action, four_digit_year. simpl. lia.
Qed.

(** X22.  With parsers that read back what the form writes, and while
    today's date and the dates entered in the form are of the year 1000 or
    later (where ['%Y'] writes the four digits that it reads), no run of a
    session raises: every screen a user can bring about is the form or the
    list, never an exception, and the list shows all its cards, no key of a
    button being taken twice.  The dates, times and categories the form, the
    sort and the cards read are the ones the form wrote. *)
Theorem reachable_never_raises lower strptime sd st sf s scr :
  reads_back strptime → reads_back_date sd → reads_back_time st →
  reachable_four_digit lower strptime sd st sf s scr →
  (∀ e, scr ≠ ErrorScreen e) ∧
  (∀ cards failure, scr = ListScreen (EventCards cards failure) → failure = None).
Proof.
  intros H1 H2 H3 Hreach.
  exact (reachable_no_error lower strptime sd st sf H1 H2 H3 s scr Hreach).
Qed.

Lemma reachable_never_raises_witness :
  ¬ ∃ e, screen4 = ErrorScreen e.
Proof.
  destruct (reachable_never_raises ascii_lower strptime strptime_ymd strptime_hm pretty
              session4 screen4 strptime_reads_back strptime_ymd_reads_back
              strptime_hm_reads_back reachable_four_digit_example) as [Hno _].
  intros [e He]. by apply (Hno e).
Defined.
